(** * gh-actions-test: a model of [github_actions.py]

    The CI helper is embedded function by function.  Python strings are
    lists of characters, the pieces of the [re] module the script uses are
    a small backtracking matcher, and the calls that reach GitHub, the file
    system or a subprocess act on an explicit [world] value.  Console
    output ([print]) is not part of the model. *)

From Stdlib Require Import List Ascii String Bool Arith ZArith Lia DecimalString.
Import ListNotations.

Set Implicit Arguments.
Set Warnings "-register-all".

(** ** Python strings *)

Definition str := list ascii.

Definition lit (s : string) : str := list_ascii_of_string s.
Arguments lit s%_string.

Definition str_eqb (a b : str) : bool :=
  if list_eq_dec ascii_dec a b then true else false.

(** [a.startswith(p)] *)
Fixpoint startswith (a p : str) {struct p} : bool :=
  match p, a with
  | [], _ => true
  | c :: p', d :: a' => Ascii.eqb c d && startswith a' p'
  | _ :: _, [] => false
  end.

(** [a.endswith(p)] *)
Definition endswith (a p : str) : bool := startswith (rev a) (rev p).

(** [sep.join(parts)] *)
Fixpoint join (sep : str) (parts : list str) : str :=
  match parts with
  | [] => []
  | [p] => p
  | p :: rest => p ++ sep ++ join sep rest
  end.

(** ** The part of [re] the script relies on *)

Module Re.

(** Patterns.  [Bol] is [^] (without [re.MULTILINE]), [Cls] a character
    class, [Star] the greedy [*], [Group] a numbered capturing group. *)
Inductive regex : Type :=
| Eps
| Bol
| Cls (f : ascii -> bool)
| Cat (a b : regex)
| Star (a : regex)
| Group (i : nat) (a : regex).

Definition Chr (c : ascii) : regex := Cls (Ascii.eqb c).

Fixpoint Lit (s : str) : regex :=
  match s with
  | [] => Eps
  | c :: s' => Cat (Chr c) (Lit s')
  end.

(** [a{n,}] *)
Fixpoint AtLeast (n : nat) (a : regex) : regex :=
  match n with
  | O => Star a
  | S n' => Cat a (AtLeast n' a)
  end.

(** [[lo-hi]] *)
Definition in_range (lo hi c : ascii) : bool :=
  (nat_of_ascii lo <=? nat_of_ascii c) && (nat_of_ascii c <=? nat_of_ascii hi).

(** Capture table: group number, start and end offset; latest entry first. *)
Definition caps := list (nat * (nat * nat)).

(** One greedy [*] loop around a matcher [body] for the iterated pattern:
    first try one more iteration (which has to consume text), and fall back
    to the continuation.  [n] bounds the number of iterations by the length
    of the text. *)
Section StarLoop.
Variable A : Type.
Variable body : nat -> str -> caps -> (nat -> str -> caps -> option A) -> option A.
Variable k : nat -> str -> caps -> option A.

Fixpoint star_loop (n : nat) (pos : nat) (s : str) (cs : caps) {struct n} : option A :=
  match n with
  | O => k pos s cs
  | S n' =>
      match body pos s cs
              (fun p' s' cs' =>
                 if List.length s' <? List.length s
                 then star_loop n' p' s' cs' else None)
      with
      | Some x => Some x
      | None => k pos s cs
      end
  end.
End StarLoop.

(** The backtracking matcher.  [bt r pos s cs k] matches [r] against the
    text [s] that starts at offset [pos] and hands the rest to the
    continuation [k]; alternatives are tried in the order of the [re]
    engine. *)
Fixpoint bt (A : Type) (r : regex) (pos : nat) (s : str) (cs : caps)
    (k : nat -> str -> caps -> option A) {struct r} : option A :=
  match r with
  | Eps => k pos s cs
  | Bol => if pos =? 0 then k pos s cs else None
  | Cls f =>
      match s with
      | c :: s' => if f c then k (S pos) s' cs else None
      | [] => None
      end
  | Cat a b => bt a pos s cs (fun p' s' cs' => bt b p' s' cs' k)
  | Group i a => bt a pos s cs (fun p' s' cs' => k p' s' ((i, (pos, p')) :: cs'))
  | Star a => star_loop (bt (A:=A) a) k (List.length s) pos s cs
  end.

(** A match object: start, end and the capture table. *)
Record rmatch := { m_start : nat; m_end : nat; m_caps : caps }.

Definition match_at (r : regex) (pos : nat) (s : str) : option rmatch :=
  bt r pos s [] (fun p' _ cs' => Some {| m_start := pos; m_end := p'; m_caps := cs' |}).

(** [re.search]: the first offset, from the left, at which the pattern matches. *)
Fixpoint search_from (r : regex) (pos : nat) (s : str) : option rmatch :=
  match match_at r pos s with
  | Some m => Some m
  | None =>
      match s with
      | [] => None
      | _ :: s' => search_from r (S pos) s'
      end
  end.

Definition search (r : regex) (s : str) : option rmatch := search_from r 0 s.

Definition slice (s : str) (i j : nat) : str := firstn (j - i) (skipn i s).

Fixpoint lookup_cap (i : nat) (cs : caps) : option (nat * nat) :=
  match cs with
  | [] => None
  | (j, span) :: cs' => if i =? j then Some span else lookup_cap i cs'
  end.

(** [m.group(i)] for a group that took part in the match of [s]. *)
Definition group (s : str) (m : rmatch) (i : nat) : str :=
  match lookup_cap i (m_caps m) with
  | Some (a, b) => slice s a b
  | None => []
  end.

(** The scan shared by [re.findall] and [re.sub] for patterns that match
    no empty string: non-overlapping matches from the left; the text
    between them is kept ([inl]) and each match reported ([inr]). *)
Fixpoint scan (fuel : nat) (r : regex) (pos : nat) (s : str) : list (ascii + str) :=
  match fuel with
  | O => []
  | S fuel' =>
      match s with
      | [] => []
      | c :: s' =>
          match match_at r pos s with
          | Some m =>
              let n := m_end m - pos in
              match n with
              | O => inl c :: scan fuel' r (S pos) s'
              | S _ => inr (firstn n s) :: scan fuel' r (m_end m) (skipn n s)
              end
          | None => inl c :: scan fuel' r (S pos) s'
          end
      end
  end.

(** [re.findall(r, s)] for a pattern without groups. *)
Definition findall (r : regex) (s : str) : list str :=
  flat_map (fun x => match x with inl _ => [] | inr w => [w] end)
           (scan (List.length s) r 0 s).

(** [re.sub(r, repl, s)] for a replacement without back-references. *)
Definition sub (r : regex) (repl : str) (s : str) : str :=
  flat_map (fun x => match x with inl c => [c] | inr _ => repl end)
           (scan (List.length s) r 0 s).

(** *** The language of a pattern *)

Inductive star_lang (L : nat -> str -> Prop) : nat -> str -> Prop :=
| star_nil p : star_lang L p []
| star_cons p w1 w2 :
    L p w1 -> star_lang L (p + List.length w1) w2 -> star_lang L p (w1 ++ w2).

(** [lang r p w]: the text [w], found at offset [p], matches [r]. *)
Fixpoint lang (r : regex) (p : nat) (w : str) : Prop :=
  match r with
  | Eps => w = []
  | Bol => p = 0 /\ w = []
  | Cls f => exists c, w = [c] /\ f c = true
  | Cat a b =>
      exists w1 w2, w = w1 ++ w2 /\ lang a p w1 /\ lang b (p + List.length w1) w2
  | Star a => star_lang (lang a) p w
  | Group _ a => lang a p w
  end.

End Re.

(** ** Exceptions and results *)

(** The exceptions the script lets escape; [OSError] stands for its
    subclasses too ([FileNotFoundError] and the like). *)
Inductive exn : Type :=
| RuntimeError (msg : str)
| OSError
| UnicodeDecodeError
| JSONDecodeError
| KeyError
| IndexError
| TypeError
| AttributeError
| HTTPError (code : nat).

Inductive result (A : Type) : Type :=
| Ret (a : A)
| Raise (e : exn).

Arguments Ret {A} a.
Arguments Raise {A} e.

Definition bind {A B : Type} (r : result A) (f : A -> result B) : result B :=
  match r with
  | Ret a => f a
  | Raise e => Raise e
  end.

(** ** The event cache *)

Module EventCache.

(** The JSON documents [json.loads] can return, as Python values; JSON
    [null] is Python's [None], a number with a fraction or an exponent is
    a float, kept as the text of its [repr], and an object is a dictionary
    in the order of its keys. *)
Inductive pyval : Type :=
| PyNone
| PyBool (b : bool)
| PyInt (z : Z)
| PyFloat (r : str)
| PyStr (s : str)
| PyList (l : list pyval)
| PyDict (items : list (str * pyval)).

Definition is_None (v : pyval) : bool :=
  match v with PyNone => true | _ => false end.

(** What the process can see of its host: the environment, the files and
    the JSON parser. *)
Record host : Type := {
  environ : str -> option str;
  file_content : str -> option str;
  json_loads : str -> option pyval
}.

(** A [CachedGitHubActionEvent] object together with the number of times
    the process has opened the payload file. *)
Record cache : Type := { _event : pyval; reads : nat }.

(** [__init__] *)
Definition init : cache := {| _event := PyNone; reads := 0 |}.

(** [__call__]: read the content lazily and return it. *)
Definition call (h : host) (c : cache) : result pyval * cache :=
  if is_None (_event c) then
    match environ h (lit "GITHUB_EVENT_PATH") with
    | None => (Raise KeyError, c)
    | Some path =>
        match file_content h path with
        | None => (Raise OSError, c)
        | Some text =>
            let c1 := {| _event := _event c; reads := S (reads c) |} in
            match json_loads h text with
            | None => (Raise JSONDecodeError, c1)
            | Some v => (Ret v, {| _event := v; reads := reads c1 |})
            end
        end
    end
  else (Ret (_event c), c).

(** [v[key]] for a string key. *)
Fixpoint dict_get (items : list (str * pyval)) (key : str) : option pyval :=
  match items with
  | [] => None
  | (k, v) :: rest => if str_eqb k key then Some v else dict_get rest key
  end.

Definition subscript (v : pyval) (key : str) : result pyval :=
  match v with
  | PyDict items =>
      match dict_get items key with
      | Some x => Ret x
      | None => Raise KeyError
      end
  | _ => Raise TypeError
  end.

(** [GH_EVENT()["pull_request"]], the form every use of the cache in the
    script takes. *)
Definition pull_request (h : host) (c : cache) : result pyval * cache :=
  let '(r, c') := call h c in (bind r (fun v => subscript v (lit "pull_request")), c').

(** A process that evaluates [GH_EVENT()["pull_request"]] [n] times in a
    row; an exception ends it.  The values obtained are returned, first
    access first. *)
Fixpoint accesses (h : host) (n : nat) (c : cache) : result (list pyval) * cache :=
  match n with
  | O => (Ret [], c)
  | S n' =>
      match pull_request h c with
      | (Ret v, c') =>
          let '(r, c'') := accesses h n' c' in
          (bind r (fun vs => Ret (v :: vs)), c'')
      | (Raise e, c') => (Raise e, c')
      end
  end.

End EventCache.

(** ** The world the script acts on *)

(** The fields of the event payload that the functions below read. *)
Record pull_request : Type := {
  pr_title : str;
  pr_labels : list str;
  head_sha : str;
  head_repo_url : str
}.

(** A commit status. *)
Record status : Type := {
  st_state : str;
  st_description : str;
  st_context : str
}.

(** An annotation of a check run; the positions are the values found in
    the linter's report. *)
Record annotation : Type := {
  path : str;
  start_line : EventCache.pyval;
  end_line : EventCache.pyval;
  start_column : EventCache.pyval;
  end_column : EventCache.pyval;
  annotation_level : str;
  message : str
}.

(** The body of the check-run request. *)
Record check_run : Type := {
  cr_name : str;
  cr_head_sha : str;
  cr_status : str;
  cr_conclusion : str;
  cr_title : str;
  cr_summary : str;
  cr_annotations : list annotation
}.

(** The calls that change something outside the process. *)
Inductive call : Type :=
| CreateStatus (st : status)
| CreateComment (body : str)
| EditComment (index : nat) (body : str)
| Post (url : str) (data : check_run)
| Mkdtemp (d : nat)
| Rmtree (d : nat).

(** The pull request named by the event, as GitHub holds it, and the
    temporary directories of the worker.  [statuses] is what
    [commit.get_statuses()] lists for the head commit, most recent first;
    [comments] are the bodies [pr.get_issue_comments()] lists, oldest
    first; [trace] records the calls made so far, oldest first. *)
Record world : Type := {
  event : pull_request;
  api_title : str;
  statuses : list status;
  comments : list str;
  tempdirs : list nat;
  next_tmp : nat;
  trace : list call
}.

Definition set_statuses (l : list status) (w : world) : world :=
  {| event := event w; api_title := api_title w; statuses := l;
     comments := comments w; tempdirs := tempdirs w; next_tmp := next_tmp w;
     trace := trace w |}.

Definition set_comments (l : list str) (w : world) : world :=
  {| event := event w; api_title := api_title w; statuses := statuses w;
     comments := l; tempdirs := tempdirs w; next_tmp := next_tmp w;
     trace := trace w |}.

Definition set_tempdirs (l : list nat) (n : nat) (w : world) : world :=
  {| event := event w; api_title := api_title w; statuses := statuses w;
     comments := comments w; tempdirs := l; next_tmp := n;
     trace := trace w |}.

Definition log (c : call) (w : world) : world :=
  {| event := event w; api_title := api_title w; statuses := statuses w;
     comments := comments w; tempdirs := tempdirs w; next_tmp := next_tmp w;
     trace := trace w ++ [c] |}.

(** [commit.create_status(state, description=..., context=...)] *)
Definition create_status (state description context : str) (w : world) : world :=
  let st := {| st_state := state; st_description := description;
               st_context := context |} in
  log (CreateStatus st) (set_statuses (st :: statuses w) w).

(** [pr.create_issue_comment(body)] *)
Definition create_issue_comment (body : str) (w : world) : world :=
  log (CreateComment body) (set_comments (comments w ++ [body]) w).

(** [tempfile.mkdtemp()] *)
Definition mkdtemp (w : world) : nat * world :=
  let d := next_tmp w in
  (d, log (Mkdtemp d) (set_tempdirs (d :: tempdirs w) (S d) w)).

(** [shutil.rmtree(d)] *)
Definition rmtree (d : nat) (w : world) : world :=
  log (Rmtree d)
      (set_tempdirs (filter (fun x => negb (x =? d)) (tempdirs w)) (next_tmp w) w).

(** ** Constants *)

Definition JIRA_URL : str := lit "https://yabba.atlassian.net/browse".
Definition WIP_CONTEXT : str := lit "Draft".
Definition WIP_LABEL : str := lit "draft".

Definition LINTERS : list (str * list (str * list str)) :=
  [ (lit "flake8-plain",
      [ (lit "py", [lit "flake8"; lit "--statistics"]);
        (lit "ipynb", [lit "flake8"; lit "--append-config";
                       lit ".flake8_append_notebooks"; lit "--statistics"]) ]);
    (lit "flake8-json",
      [ (lit "py", [lit "flake8"; lit "--format=json"]);
        (lit "ipynb", [lit "flake8"; lit "--append-config";
                       lit ".flake8_append_notebooks"; lit "--format=json"]) ]) ].

(** ** Pull request title, labels and statuses *)

(** [get_pr_title]: the title the API reports, not the cached one. *)
Definition get_pr_title (w : world) : str := api_title w.

(** [get_pr_labels]: the labels of the cached event. *)
Definition get_pr_labels (w : world) : list str := pr_labels (event w).

(** [get_status]: the first status of the listing with the given context. *)
Definition get_status (context : str) (w : world) : option status :=
  find (fun st => str_eqb (st_context st) context) (statuses w).

(** ** Tagged comments *)

(** The characters outside a-z, A-Z, 0-9, underscore and dash. *)
Definition not_tag_char (c : ascii) : bool :=
  negb (Re.in_range "a" "z" c || Re.in_range "A" "Z" c || Re.in_range "0" "9" c
        || Ascii.eqb "_" c || Ascii.eqb "-" c).

(** The tag with each such character replaced by an underscore. *)
Definition normalize (tag : str) : str :=
  Re.sub (Re.Cls not_tag_char) (lit "_") tag.

Definition html_tag_of (tag : str) : str :=
  lit "<!-- CWTag: " ++ tag ++ lit " -->".

Definition newline : ascii := ascii_of_nat 10.

(** The loop over [pr.get_issue_comments()]: [None] when it ends with
    [found] still false; otherwise the comments after the first match was
    looked at, and the edit made, if any. *)
Fixpoint update_first (html_tag full_body : str) (index : nat) (cs : list str)
  : option (list str * list call) :=
  match cs with
  | [] => None
  | c :: rest =>
      if startswith c html_tag then
        if str_eqb c full_body then Some (c :: rest, [])
        else Some (full_body :: rest, [EditComment index full_body])
      else
        match update_first html_tag full_body (S index) rest with
        | Some (rest', calls) => Some (c :: rest', calls)
        | None => None
        end
  end.

(** [post_tagged_comment]: post a new tagged comment or modify an existing one. *)
Definition post_tagged_comment (tag body : str) (w : world) : world :=
  let tag := normalize tag in
  let html_tag := html_tag_of tag in
  let full_body := html_tag ++ [newline] ++ body in
  match update_first html_tag full_body 0 (comments w) with
  | Some (cs', calls) => fold_left (fun w c => log c w) calls (set_comments cs' w)
  | None => create_issue_comment full_body w
  end.

(** ** The title check *)

Definition upper : ascii -> bool := Re.in_range "A" "Z".
Definition digit19 : ascii -> bool := Re.in_range "1" "9".
Definition digit09 : ascii -> bool := Re.in_range "0" "9".

(** One ticket reference: two or more capitals, a dash, a digit 1-9 and
    any number of digits 0-9. *)
Definition KEY_RE : Re.regex :=
  Re.Cat (Re.AtLeast 2 (Re.Cls upper))
    (Re.Cat (Re.Chr "-") (Re.Cat (Re.Cls digit19) (Re.Star (Re.Cls digit09)))).

(** Group 1 of the title pattern: any number of references each followed
    by a comma and a space (group 2), then one reference (group 3). *)
Definition KEYS_RE : Re.regex :=
  Re.Group 1
    (Re.Cat (Re.Star (Re.Group 2 (Re.Cat KEY_RE (Re.Lit (lit ", ")))))
            (Re.Group 3 KEY_RE)).

(** The title pattern: start of the string, group 1, a colon and a space. *)
Definition TITLE_RE : Re.regex :=
  Re.Cat Re.Bol (Re.Cat KEYS_RE (Re.Lit (lit ": "))).

(** The Markdown link to the issue [jk] on the tracker. *)
Definition jira_link (jk : str) : str :=
  lit "[" ++ jk ++ lit "](" ++ JIRA_URL ++ lit "/" ++ jk ++ lit ")".

(** [check_pr_title]: check the pull request title. *)
Definition check_pr_title (title : option str) (w : world) : Z * world :=
  let title := match title with Some t => t | None => get_pr_title w end in
  match Re.search TITLE_RE title with
  | None => (1%Z, w)
  | Some m =>
      let jira_keys := Re.findall KEY_RE (Re.group title m 1) in
      let msg := lit "Connected Jira: " ++ join (lit ", ") (map jira_link jira_keys) in
      (0%Z, post_tagged_comment (lit "jira") msg w)
  end.

(** The titles of [test_pr_title] and what the self-test prints for each. *)
Definition test_pr_title (w : world) : list (str * bool) :=
  map (fun t => (t, (fst (check_pr_title (Some t) w) =? 0)%Z))
      [ lit "JiRA-123: This is a title";
        lit "J-12: A title";
        lit "JIRA-01: This is a title";
        lit " JIRA-42: This is a title";
        lit "JIRA-42:This is a title";
        lit "JIRA-43: this is a title";
        lit "JIRA-1, JA-2: Multiple issues";
        lit "JIRA-1, JIRA-2, JIRA-3: Multiple issues" ].

(** ** The draft check *)

(** [is_wip != was_wip], where [was_wip] is a boolean or [None]. *)
Definition py_ne (is_wip : bool) (was_wip : option bool) : bool :=
  match was_wip with
  | Some b => negb (Bool.eqb is_wip b)
  | None => true
  end.

(** [check_wip]: check if it's a WIP by checking the labels; add custom status. *)
Definition check_wip (w : world) : Z * world :=
  let was_wip :=
    match get_status WIP_CONTEXT w with
    | Some st => Some (negb (str_eqb (st_state st) (lit "success")))
    | None => None
    end in
  let is_wip := existsb (str_eqb WIP_LABEL) (get_pr_labels w) in
  if py_ne is_wip was_wip then
    if is_wip then
      (0%Z, create_status (lit "failure")
              (lit "Has the " ++ [Ascii.ascii_of_nat 34] ++ WIP_LABEL
                 ++ [Ascii.ascii_of_nat 34] ++ lit " label")
              WIP_CONTEXT w)
    else
      (0%Z, create_status (lit "success")
              (lit "Does not have the " ++ [Ascii.ascii_of_nat 34] ++ WIP_LABEL
                 ++ [Ascii.ascii_of_nat 34] ++ lit " label")
              WIP_CONTEXT w)
  else (0%Z, w).

(** ** The lint step *)

(** What the lint step can see of the worker: the files the glob yields,
    path resolution, the name of a temporary directory, [run_silent]
    (the exit code and the output of a command; it raises [OSError] when
    the command cannot be started and [UnicodeDecodeError] when the output
    is no UTF-8 text), whether a file exists, [json.loads] ([None] when it
    raises), the interpreter's [repr] of a list or a dictionary, and the
    HTTP status GitHub answers a POST with. *)
Record host : Type := {
  iglob : str -> list str;
  realpath : str -> str;
  tmp_path : nat -> str;
  run_silent : list str -> result (Z * str);
  isfile : str -> bool;
  json_loads : str -> option EventCache.pyval;
  py_repr : EventCache.pyval -> str;
  http_post : str -> check_run -> nat
}.

(** [annotate_check]: use the Checks API to add annotations for the check. *)
Definition annotate_check (h : host) (check_name : str) (success : bool)
    (annotations : list annotation) (w : world) : result unit * world :=
  let sha := head_sha (event w) in
  let repo_url := head_repo_url (event w) in
  let check_url := repo_url ++ lit "/check-runs" in
  let post_data :=
    {| cr_name := lit "flake8";
       cr_head_sha := sha;
       cr_status := lit "completed";
       cr_conclusion := if success then lit "success" else lit "failure";
       cr_title := lit "Flake8";
       cr_summary := lit "Python code linted using [Flake8](http://flake8.pycqa.org/).";
       cr_annotations := annotations |} in
  let resp := http_post h check_url post_data in
  let w' := log (Post check_url post_data) w in
  if (400 <=? resp) && (resp <? 600) then (Raise (HTTPError resp), w')
  else (Ret tt, w').

(** [d.get(key, default)] on a dictionary kept in insertion order. *)
Fixpoint dict_get (V : Type) (d : list (str * V)) (key : str) (default : V) : V :=
  match d with
  | [] => default
  | (k, v) :: rest => if str_eqb k key then v else dict_get rest key default
  end.

(** [d[key] = v] *)
Fixpoint dict_set (V : Type) (d : list (str * V)) (key : str) (v : V) : list (str * V) :=
  match d with
  | [] => [(key, v)]
  | (k, x) :: rest =>
      if str_eqb k key then (k, v) :: rest else (k, x) :: dict_set rest key v
  end.

(** [needle in hay] on strings. *)
Fixpoint contains (hay needle : str) : bool :=
  startswith hay needle
  || match hay with
     | [] => false
     | _ :: rest => contains rest needle
     end.

(** The part of [fn] before its first slash. *)
Fixpoint root_dir (fn : str) : str :=
  match fn with
  | [] => []
  | c :: rest => if Ascii.eqb c "/" then [] else c :: root_dir rest
  end.

(** The files the loop passes over. *)
Definition skipped (fn : str) : bool :=
  let root := root_dir fn in
  existsb (str_eqb root) [lit "dist"; lit "build"; lit ".ipynb_checkpoints"]
  || startswith root (lit "venv").

(** [s[:-6]] *)
Definition drop6 (s : str) : str := firstn (List.length s - 6) s.

(** [os.path.join(a, b)] *)
Definition path_join (a b : str) : str :=
  if startswith b (lit "/") then b
  else if str_eqb a [] || endswith a (lit "/") then a ++ b
  else a ++ lit "/" ++ b.

(** [list(v.keys())[0]] *)
Definition first_key (v : EventCache.pyval) : result str :=
  match v with
  | EventCache.PyDict [] => Raise IndexError
  | EventCache.PyDict ((k, _) :: _) => Ret k
  | _ => Raise AttributeError
  end.

(** The items a [for] loop over [v] visits. *)
Definition iterate (v : EventCache.pyval) : result (list EventCache.pyval) :=
  match v with
  | EventCache.PyList l => Ret l
  | EventCache.PyDict items => Ret (map (fun kv => EventCache.PyStr (fst kv)) items)
  | EventCache.PyStr s => Ret (map (fun c => EventCache.PyStr [c]) s)
  | _ => Raise TypeError
  end.

(** [v[0]] *)
Definition item0 (v : EventCache.pyval) : result EventCache.pyval :=
  match v with
  | EventCache.PyStr [] => Raise IndexError
  | EventCache.PyStr (c :: _) => Ret (EventCache.PyStr [c])
  | EventCache.PyList [] => Raise IndexError
  | EventCache.PyList (x :: _) => Ret x
  | EventCache.PyDict _ => Raise KeyError
  | _ => Raise TypeError
  end.

(** [x in hay] for a string [hay]. *)
Definition in_str (x : EventCache.pyval) (hay : str) : result bool :=
  match x with
  | EventCache.PyStr s => Ret (contains hay s)
  | _ => Raise TypeError
  end.

(** An integer in decimal. *)
Definition decimal (z : Z) : str :=
  list_ascii_of_string (NilZero.string_of_int (Z.to_int z)).

(** [str(v)], as an f-string formats [v]. *)
Definition py_str (h : host) (v : EventCache.pyval) : str :=
  match v with
  | EventCache.PyNone => lit "None"
  | EventCache.PyBool true => lit "True"
  | EventCache.PyBool false => lit "False"
  | EventCache.PyInt z => decimal z
  | EventCache.PyFloat r => r
  | EventCache.PyStr s => s
  | _ => py_repr h v
  end.

(** The severity of a finding: PEP-8 codes are errors, the rest warnings. *)
Definition level (li : EventCache.pyval) : result str :=
  bind (EventCache.subscript li (lit "code")) (fun code =>
  bind (item0 code) (fun c =>
  bind (in_str c (lit "EW")) (fun errors =>
    Ret (if errors then lit "failure" else lit "warning")))).

(** The annotation appended for the finding [li] of the file [fn]; the
    entries of the dictionary are evaluated in the order they are written. *)
Definition make_annotation (h : host) (fn : str) (li : EventCache.pyval)
  : result annotation :=
  bind (EventCache.subscript li (lit "line_number")) (fun start_line =>
  bind (EventCache.subscript li (lit "line_number")) (fun end_line =>
  bind (EventCache.subscript li (lit "column_number")) (fun start_column =>
  bind (EventCache.subscript li (lit "column_number")) (fun end_column =>
  bind (level li) (fun lv =>
  bind (EventCache.subscript li (lit "code")) (fun code =>
  bind (EventCache.subscript li (lit "text")) (fun text =>
    Ret {| path := fn;
           start_line := start_line;
           end_line := end_line;
           start_column := start_column;
           end_column := end_column;
           annotation_level := lv;
           message := py_str h code ++ lit ": " ++ py_str h text |}))))))).

Fixpoint append_annotations (h : host) (fn : str) (lis : list EventCache.pyval)
    (annotations : list annotation) : result (list annotation) :=
  match lis with
  | [] => Ret annotations
  | li :: rest =>
      bind (make_annotation h fn li) (fun a =>
        append_annotations h fn rest (annotations ++ [a]))
  end.

(** The findings the loop of lines 259-271 visits: the value under the
    first key of the decoded output. *)
Definition first_report (h : host) (out : str) : result (list EventCache.pyval) :=
  match json_loads h out with
  | None => Raise JSONDecodeError
  | Some linter_out =>
      bind (first_key linter_out) (fun key =>
      bind (EventCache.subscript linter_out key) iterate)
  end.

(** The loop state: the annotations and the [bad] dictionary. *)
Definition acc : Type := (list annotation * list (str * list str))%type.

(** Preparing one file for one linter: the path to lint and the command.
    A notebook is converted first; the directory made for the script and
    the move of the script into it both stay inside the directory
    [mkdtemp] has just made, are taken to succeed and are left out. *)
Definition prepare (h : host) (tempdir fn linter_name : str)
    (linter_opts : list (str * list str)) : result (str * list str) :=
  if endswith fn (lit ".ipynb") then
    let real_fn := drop6 (path_join tempdir fn) ++ lit ".py" in
    bind (run_silent h [lit "jupyter"; lit "nbconvert"; fn; lit "--to"; lit "script"])
      (fun '(rc, out) =>
         if negb (rc =? 0)%Z || negb (isfile h (drop6 fn ++ lit ".py")) then
           Raise (RuntimeError (lit "Notebook conversion failed"))
         else Ret (real_fn, dict_get linter_opts (lit "ipynb") [linter_name]))
  else Ret (realpath h fn, dict_get linter_opts (lit "py") [linter_name]).

(** The body of the inner loop for a linter in use. *)
Definition lint_one (h : host) (checks_api : bool) (tempdir fn linter_name : str)
    (linter_opts : list (str * list str)) (st : acc) : result acc :=
  bind (prepare h tempdir fn linter_name linter_opts) (fun '(real_fn, linter_cmd) =>
  bind (run_silent h (linter_cmd ++ [real_fn])) (fun '(rc, out) =>
    let '(annotations, bad) := st in
    if (rc =? 0)%Z then Ret st
    else
      bind (if checks_api then
              bind (first_report h out) (fun linter_out =>
                append_annotations h fn linter_out annotations)
            else Ret annotations)
        (fun annotations' =>
           Ret (annotations',
                dict_set bad fn (dict_get bad fn [] ++ [linter_name]))))).

(** The inner loop, over [LINTERS.items()]. *)
Fixpoint lint_linters (h : host) (checks_api : bool) (tempdir : str)
    (use_linters : list str) (fn : str)
    (linters : list (str * list (str * list str))) (st : acc) : result acc :=
  match linters with
  | [] => Ret st
  | (linter_name, linter_opts) :: rest =>
      if negb (existsb (str_eqb linter_name) use_linters) then
        lint_linters h checks_api tempdir use_linters fn rest st
      else
        bind (lint_one h checks_api tempdir fn linter_name linter_opts st)
          (lint_linters h checks_api tempdir use_linters fn rest)
  end.

(** The outer loop, over the files of the globs. *)
Fixpoint lint_files (h : host) (checks_api : bool) (tempdir : str)
    (use_linters : list str) (files : list str) (st : acc) : result acc :=
  match files with
  | [] => Ret st
  | fn :: rest =>
      if skipped fn then lint_files h checks_api tempdir use_linters rest st
      else
        bind (lint_linters h checks_api tempdir use_linters fn LINTERS st)
          (lint_files h checks_api tempdir use_linters rest)
  end.

Definition use_linters_of (checks_api : bool) : list str :=
  if checks_api then [lit "flake8-json"] else [lit "flake8-plain"].

(** The files of the chained recursive globs, one glob per pattern. *)
Definition globbed (h : host) (ext : list str) : list str :=
  flat_map (fun pattern => iglob h (lit "**/" ++ pattern)) ext.

(** [lint]: use linters to lint all the specified extensions. *)
Definition lint (h : host) (ext : list str) (checks_api : bool) (w : world)
  : result Z * world :=
  let use_linters := use_linters_of checks_api in
  let '(d, w1) := mkdtemp w in
  let tempdir := tmp_path h d in
  match lint_files h checks_api tempdir use_linters (globbed h ext) ([], []) with
  | Raise e => (Raise e, w1)
  | Ret (annotations, bad) =>
      let w2 := rmtree d w1 in
      match bad with
      | _ :: _ =>
          if checks_api then
            match annotate_check h (lit "flake8") false annotations w2 with
            | (Raise e, w3) => (Raise e, w3)
            | (Ret _, w3) => (Ret 1%Z, w3)
            end
          else (Ret 1%Z, w2)
      | [] =>
          if checks_api then
            match annotate_check h (lit "flake8") true [] w2 with
            | (Raise e, w3) => (Raise e, w3)
            | (Ret _, w3) => (Ret 0%Z, w3)
            end
          else (Ret 0%Z, w2)
      end
  end.

Definition lint_py (h : host) : world -> result Z * world :=
  lint h [lit "*.py"] true.

Definition lint_notebooks (h : host) : world -> result Z * world :=
  lint h [lit "*.ipynb"] true.

Definition lint_all (h : host) : world -> result Z * world :=
  lint h [lit "*.py"; lit "*.ipynb"] true.

(** ** The title format in the words of the specification *)

Definition uppercase_letter (c : ascii) : Prop :=
  In c (lit "ABCDEFGHIJKLMNOPQRSTUVWXYZ").

Definition decimal_digit (c : ascii) : Prop := In c (lit "0123456789").

Definition nonzero_digit (c : ascii) : Prop := In c (lit "123456789").

(** A key: two or more uppercase letters. *)
Definition ticket_key (k : str) : Prop :=
  2 <= List.length k /\ Forall uppercase_letter k.

(** A number: a positive integer with no leading zero. *)
Definition ticket_number (n : str) : Prop :=
  exists d ds, n = d :: ds /\ nonzero_digit d /\ Forall decimal_digit ds.

(** A ticket reference: KEY-NUMBER. *)
Definition ticket_reference (t : str) : Prop :=
  exists k n, t = k ++ lit "-" ++ n /\ ticket_key k /\ ticket_number n.

(** One or more references, separated by a comma and a space. *)
Definition ticket_list (l : str) : Prop :=
  exists refs, refs <> [] /\ Forall ticket_reference refs /\ l = join (lit ", ") refs.

(** The title starts with a ticket list followed by a colon and a space. *)
Definition well_formed_title (title : str) : Prop :=
  exists l rest, ticket_list l /\ title = l ++ lit ": " ++ rest.

(** ** Observations on the world *)

(** The calls made on the way from [w] to [w']. *)
Definition new_calls (w w' : world) : list call :=
  skipn (List.length (trace w)) (trace w').

(** The number of comments that start with the marker [html_tag]. *)
Definition count_tagged (html_tag : str) (cs : list str) : nat :=
  List.length (filter (fun c => startswith c html_tag) cs).

(** The check runs posted, the status writes and the removals of the
    directory [d] among some calls. *)
Definition posted (calls : list call) : list check_run :=
  flat_map (fun c => match c with Post _ data => [data] | _ => [] end) calls.

Definition status_writes (calls : list call) : list status :=
  flat_map (fun c => match c with CreateStatus st => [st] | _ => [] end) calls.

Definition removals (d : nat) (calls : list call) : nat :=
  List.length
    (filter (fun c => match c with Rmtree x => x =? d | _ => false end) calls).

(** ** Sample worlds and hosts *)

Definition sample_event : pull_request :=
  {| pr_title := lit "JIRA-42: fix";
     pr_labels := [];
     head_sha := lit "0123abc";
     head_repo_url := lit "https://api.github.com/repos/o/r" |}.

(** A pull request without labels, statuses or comments. *)
Definition fresh_world : world :=
  {| event := sample_event;
     api_title := lit "JIRA-42: fix";
     statuses := [];
     comments := [];
     tempdirs := [];
     next_tmp := 0;
     trace := [] |}.

(** The hidden marker of a tag and the body posted under it. *)
Definition marker (tag : str) : str := html_tag_of (normalize tag).

Definition full_body (tag body : str) : str := marker tag ++ [newline] ++ body.

(** ** The draft check, in the words of the specification *)

(** "Is it currently a draft": the label draft is among the labels of the
    pull request. *)
Definition is_draft (w : world) : bool :=
  existsb (str_eqb (lit "draft")) (pr_labels (event w)).

(** "Was it failing": the recorded state is not success; [None] when no
    status has been recorded under the context. *)
Definition was_failing (w : world) : option bool :=
  match get_status WIP_CONTEXT w with
  | Some st => Some (negb (str_eqb (st_state st) (lit "success")))
  | None => None
  end.

(** The statuses the head commit has under the context Draft, most recent
    first, and the recorded "was failing" read off the listing itself:
    whether the state of the most recent of them is not success, [None]
    when there is none. *)
Definition draft_statuses (w : world) : list status :=
  filter (fun st => str_eqb (st_context st) (lit "Draft")) (statuses w).

Definition recorded_failing (w : world) : option bool :=
  match draft_statuses w with
  | [] => None
  | st :: _ => Some (negb (str_eqb (st_state st) (lit "success")))
  end.

(** A pull request without labels whose head commit has a status of the
    build and none of the draft check. *)
Definition built_world : world :=
  {| event := sample_event;
     api_title := lit "JIRA-42: fix";
     statuses := [ {| st_state := lit "success";
                      st_description := lit "Build passed";
                      st_context := lit "ci/build" |} ];
     comments := [];
     tempdirs := [];
     next_tmp := 0;
     trace := [] |}.

(** The state written for a draft and for a pull request that is none. *)
Definition draft_state (draft : bool) : str :=
  if draft then lit "failure" else lit "success".

(** ** The lint step, in the words of the specification *)

(** The file loop of [lint], with the directory [mkdtemp] hands out. *)
Definition lint_loop (h : host) (ext : list str) (checks_api : bool) (w : world)
  : result acc :=
  lint_files h checks_api (tmp_path h (next_tmp w)) (use_linters_of checks_api)
    (globbed h ext) ([], []).

(** The linter profile in use in each mode. *)
Definition active_name (checks_api : bool) : str :=
  if checks_api then lit "flake8-json" else lit "flake8-plain".

Definition active_opts (checks_api : bool) : list (str * list str) :=
  dict_get LINTERS (active_name checks_api) [].

(** The exit code of the linter run on the file [fn]. *)
Definition linter_exit (h : host) (checks_api : bool) (tempdir fn : str) : result Z :=
  bind (prepare h tempdir fn (active_name checks_api) (active_opts checks_api))
    (fun '(real_fn, linter_cmd) =>
       bind (run_silent h (linter_cmd ++ [real_fn])) (fun '(rc, out) => Ret rc)).

(** Every linter run exited 0 (or no file matched). *)
Definition clean (h : host) (checks_api : bool) (tempdir : str) (files : list str) : Prop :=
  Forall (fun fn => skipped fn = true \/ linter_exit h checks_api tempdir fn = Ret 0%Z)
         files.

(** The check-run report for the pull request of [w]. *)
Definition report (w : world) (success : bool) (annotations : list annotation)
  : check_run :=
  {| cr_name := lit "flake8";
     cr_head_sha := head_sha (event w);
     cr_status := lit "completed";
     cr_conclusion := if success then lit "success" else lit "failure";
     cr_title := lit "Flake8";
     cr_summary := lit "Python code linted using [Flake8](http://flake8.pycqa.org/).";
     cr_annotations := annotations |}.

Definition check_url (w : world) : str := head_repo_url (event w) ++ lit "/check-runs".

(** GitHub answers the report with a status that is no error. *)
Definition accepted (h : host) (w : world) (r : check_run) : bool :=
  negb ((400 <=? http_post h (check_url w) r) && (http_post h (check_url w) r <? 600)).

Definition is_nil (A : Type) (l : list A) : bool :=
  match l with [] => true | _ => false end.

(** A worker with one notebook whose conversion fails. *)
Definition notebook_host : host :=
  {| iglob := fun pattern =>
       if str_eqb pattern (lit "**/*.ipynb") then [lit "a.ipynb"] else [];
     realpath := fun fn => lit "/work/" ++ fn;
     tmp_path := fun _ => lit "/tmp/tmpdir";
     run_silent := fun _ => Ret (1%Z, lit "conversion error");
     isfile := fun _ => false;
     json_loads := fun _ => None;
     py_repr := fun _ => [];
     http_post := fun _ _ => 201 |}.

(** A finding as the linter reports it: an object with the code, the
    file, the position and the text. *)
Definition flake8_finding (filename code text : str) (line column : Z)
  : EventCache.pyval :=
  EventCache.PyDict
    [ (lit "code", EventCache.PyStr code);
      (lit "filename", EventCache.PyStr filename);
      (lit "line_number", EventCache.PyInt line);
      (lit "column_number", EventCache.PyInt column);
      (lit "text", EventCache.PyStr text) ].

(** Three findings of the linter. *)
Definition finding_E501 : EventCache.pyval :=
  flake8_finding (lit "/work/pkg/a.py") (lit "E501") (lit "line too long") 3 80.

Definition finding_W503 : EventCache.pyval :=
  flake8_finding (lit "/work/pkg/a.py") (lit "W503")
    (lit "line break before binary operator") 7 5.

Definition finding_C901 : EventCache.pyval :=
  flake8_finding (lit "/work/pkg/a.py") (lit "C901") (lit "function is too complex") 1 1.

(** The findings the linter reports for the file [fn] in checks-API mode:
    none when the file is passed over or the linter exits with 0, else the
    list under the first key of the JSON object it prints. *)
Definition reported (h : host) (tempdir fn : str) : list EventCache.pyval :=
  if skipped fn then []
  else
    match prepare h tempdir fn (active_name true) (active_opts true) with
    | Ret (real_fn, linter_cmd) =>
        match run_silent h (linter_cmd ++ [real_fn]) with
        | Ret (rc, out) =>
            if (rc =? 0)%Z then []
            else
              match json_loads h out with
              | Some (EventCache.PyDict ((_, EventCache.PyList lis) :: _)) => lis
              | _ => []
              end
        | Raise _ => []
        end
    | Raise _ => []
    end.

(** The findings reported for the files, each with its file, in the order
    of the files. *)
Definition reported_findings (h : host) (tempdir : str) (files : list str)
  : list (str * EventCache.pyval) :=
  flat_map (fun fn => map (pair fn) (reported h tempdir fn)) files.

(** A code of PEP-8: its first character is E or W. *)
Definition pep8 (c : ascii) : Prop := c = "E"%char \/ c = "W"%char.

(** The conversion of the notebook [fn] fails: the converter runs and
    exits with an error or leaves no script behind. *)
Definition conversion_fails (h : host) (fn : str) : bool :=
  match run_silent h [lit "jupyter"; lit "nbconvert"; fn; lit "--to"; lit "script"] with
  | Ret (rc, out) => negb (rc =? 0)%Z || negb (isfile h (drop6 fn ++ lit ".py"))
  | Raise _ => false
  end.

(** A worker with one script that the linter rejects and one script of a
    virtual environment. *)
Definition flake8_host : host :=
  {| iglob := fun pattern =>
       if str_eqb pattern (lit "**/*.py") then [lit "pkg/a.py"; lit "venv3/x.py"]
       else [];
     realpath := fun fn => lit "/work/" ++ fn;
     tmp_path := fun _ => lit "/tmp/tmpdir";
     run_silent := fun cmd =>
       if str_eqb (last cmd []) (lit "/work/pkg/a.py") then Ret (1%Z, lit "{...}")
       else Ret (0%Z, []);
     isfile := fun _ => true;
     json_loads := fun out =>
       if str_eqb out (lit "{...}")
       then Some (EventCache.PyDict
                    [(lit "/work/pkg/a.py",
                      EventCache.PyList [finding_E501; finding_C901])])
       else None;
     py_repr := fun _ => [];
     http_post := fun _ _ => 201 |}.

(** A worker with one script for which the linter reports the three
    findings. *)
Definition pep8_host : host :=
  {| iglob := fun pattern =>
       if str_eqb pattern (lit "**/*.py") then [lit "pkg/a.py"] else [];
     realpath := fun fn => lit "/work/" ++ fn;
     tmp_path := fun _ => lit "/tmp/tmpdir";
     run_silent := fun _ => Ret (1%Z, lit "{...}");
     isfile := fun _ => true;
     json_loads := fun _ =>
       Some (EventCache.PyDict
               [(lit "/work/pkg/a.py",
                 EventCache.PyList [finding_E501; finding_W503; finding_C901])]);
     py_repr := fun _ => [];
     http_post := fun _ _ => 201 |}.

(** ** Further observations *)

(** The characters a normalized tag is made of. *)
Definition tag_alphabet : str :=
  lit "abcdefghijklmnopqrstuvwxyzABCDEFGHIJKLMNOPQRSTUVWXYZ0123456789_-".

(** The comments that start with the marker of [tag]. *)
Definition tagged_comments (tag : str) (w : world) : list str :=
  filter (fun c => startswith c (marker tag)) (comments w).

(** The world left by a title check. *)
Definition after_title_check (title : option str) (w : world) : world :=
  snd (check_pr_title title w).

(** The comment body that links the ticket references [refs]. *)
Definition jira_message (refs : list str) : str :=
  lit "Connected Jira: " ++ join (lit ", ") (map jira_link refs).

(** A process that calls the event cache [n] times in a row and keeps
    going after an exception; the results are returned, first call first. *)
Fixpoint cache_calls (h : EventCache.host) (n : nat) (c : EventCache.cache)
  : list (result EventCache.pyval) * EventCache.cache :=
  match n with
  | O => ([], c)
  | S n' =>
      let '(r, c') := EventCache.call h c in
      let '(rs, c'') := cache_calls h n' c' in
      (r :: rs, c'')
  end.

(** A host whose payload file holds the JSON text [null]. *)
Definition null_host : EventCache.host :=
  {| EventCache.environ := fun _ => Some (lit "/github/workflow/event.json");
     EventCache.file_content := fun _ => Some (lit "null");
     EventCache.json_loads := fun _ => Some EventCache.PyNone |}.

(** A host whose payload file holds an object with a pull request. *)
Definition event_host : EventCache.host :=
  {| EventCache.environ := fun _ => Some (lit "/github/workflow/event.json");
     EventCache.file_content := fun _ => Some (lit "{...}");
     EventCache.json_loads := fun _ =>
       Some (EventCache.PyDict
               [(lit "pull_request",
                 EventCache.PyDict [(lit "number", EventCache.PyInt 7)])]) |}.

(** The world with another cached title in its event. *)
Definition with_cached_title (t : str) (w : world) : world :=
  {| event := {| pr_title := t;
                 pr_labels := pr_labels (event w);
                 head_sha := head_sha (event w);
                 head_repo_url := head_repo_url (event w) |};
     api_title := api_title w;
     statuses := statuses w;
     comments := comments w;
     tempdirs := tempdirs w;
     next_tmp := next_tmp w;
     trace := trace w |}.

(** The text does not go on with a digit. *)
Definition no_digit_start (s : str) : Prop :=
  match s with
  | [] => True
  | c :: _ => digit09 c = false
  end.

(** The top-level names the lint step passes over. *)
Definition excluded_root (d : str) : bool :=
  existsb (str_eqb d) [lit "dist"; lit "build"; lit ".ipynb_checkpoints"]
  || startswith d (lit "venv").

(** The files of [bad], in the order of the dictionary. *)
Definition bad_files (bad : list (str * list str)) : list str := map fst bad.

(** A worker like [flake8_host] to which GitHub answers 422. *)
Definition rejecting_host : host :=
  {| iglob := iglob flake8_host;
     realpath := realpath flake8_host;
     tmp_path := tmp_path flake8_host;
     run_silent := run_silent flake8_host;
     isfile := isfile flake8_host;
     json_loads := json_loads flake8_host;
     py_repr := py_repr flake8_host;
     http_post := fun _ _ => 422 |}.


(** An annotation points at one position, has one of the two levels and
    belongs to a file recorded in [bad]. *)
Definition annotation_ok (bad : list (str * list str)) (a : annotation) : Prop :=
  start_line a = end_line a
  /\ start_column a = end_column a
  /\ (annotation_level a = lit "failure" \/ annotation_level a = lit "warning")
  /\ In (path a) (bad_files bad).




(** * Facts *)

(** ** Strings *)

Lemma str_eqb_eq (a b : str) : str_eqb a b = true <-> a = b.
Proof.
  unfold str_eqb. destruct (list_eq_dec ascii_dec a b); split; congruence.
Qed.

Lemma str_eqb_refl (a : str) : str_eqb a a = true.
Proof. now apply str_eqb_eq. Qed.

Lemma str_eqb_neq (a b : str) : str_eqb a b = false <-> a <> b.
Proof.
  unfold str_eqb. destruct (list_eq_dec ascii_dec a b); split; congruence.
Qed.

Lemma startswith_app (p rest : str) : startswith (p ++ rest) p = true.
Proof.
  induction p as [|c p IH]; simpl; [reflexivity|].
  now rewrite Ascii.eqb_refl, IH.
Qed.

Lemma startswith_spec (a p : str) :
  startswith a p = true <-> exists rest, a = p ++ rest.
Proof.
  split.
  - revert a. induction p as [|c p IH]; intros a H; simpl in *.
    + now exists a.
    + destruct a as [|d a]; [discriminate|].
      apply andb_true_iff in H as [Hc Hp]. apply Ascii.eqb_eq in Hc. subst d.
      destruct (IH _ Hp) as [rest ->]. now exists rest.
  - intros [rest ->]. apply startswith_app.
Qed.

(** ** The matcher *)

Module ReFacts.
Import Re.

(** *** The matcher finds exactly the matches of the language *)

Section StarLoopFacts.
Variable A : Type.
Variable body : nat -> str -> caps -> (nat -> str -> caps -> option A) -> option A.
Variable L : nat -> str -> Prop.

Hypothesis body_sound : forall pos s cs k x,
    body pos s cs k = Some x ->
    exists w s' cs', s = w ++ s' /\ L pos w /\ k (pos + List.length w) s' cs' = Some x.

Hypothesis body_complete : forall pos w s' k,
    L pos w -> (forall cs', k (pos + List.length w) s' cs' <> None) ->
    forall cs, body pos (w ++ s') cs k <> None.

Lemma star_loop_sound k n : forall pos s cs x,
    star_loop body k n pos s cs = Some x ->
    exists w s' cs',
      s = w ++ s' /\ star_lang L pos w /\ k (pos + List.length w) s' cs' = Some x.
Proof.
    induction n as [|n IH]; intros pos s cs x H; simpl in H.
    - exists [], s, cs. rewrite Nat.add_0_r. repeat split; [constructor | exact H].
    - destruct (body pos s cs _) as [y|] eqn:E.
      + injection H as ->.
        apply body_sound in E as (w1 & s1 & cs1 & -> & Hw1 & Hk).
        destruct (List.length s1 <? List.length (w1 ++ s1)); [|discriminate].
        apply IH in Hk as (w2 & s2 & cs2 & -> & Hw2 & Hk).
        exists (w1 ++ w2), s2, cs2. rewrite length_app, Nat.add_assoc, app_assoc.
        repeat split; [now constructor | exact Hk].
      + exists [], s, cs. rewrite Nat.add_0_r. repeat split; [constructor | exact H].
Qed.

Lemma star_loop_complete k pos w : star_lang L pos w ->
    forall n s' cs, List.length (w ++ s') <= n ->
      (forall cs', k (pos + List.length w) s' cs' <> None) ->
      star_loop body k n pos (w ++ s') cs <> None.
Proof.
    induction 1 as [p | p w1 w2 H1 H2 IH]; intros n s' cs Hn Hk.
    - simpl in *. rewrite Nat.add_0_r in Hk.
      destruct n; simpl; [apply Hk|].
      destruct (body p s' cs _); [discriminate | apply Hk].
    - destruct w1 as [|c w1].
      + simpl in *. rewrite Nat.add_0_r in IH. now apply IH.
      + destruct n as [|n]; [simpl in Hn; lia|].
        simpl star_loop.
        assert (E : body p (((c :: w1) ++ w2) ++ s') cs
                  (fun p' s'0 cs' =>
                     if List.length s'0 <? List.length (((c :: w1) ++ w2) ++ s')
                     then star_loop body k n p' s'0 cs' else None) <> None).
        { rewrite <- app_assoc. apply body_complete; [exact H1|].
          intros cs'.
          replace (List.length (w2 ++ s') <? List.length ((c :: w1) ++ w2 ++ s'))
            with true
            by (symmetry; apply Nat.ltb_lt; rewrite !length_app; simpl; lia).
          apply IH.
          - rewrite !length_app in *. simpl in Hn. lia.
          - intros cs''. rewrite <- Nat.add_assoc, <- length_app. apply Hk. }
        destruct (body p _ cs _); [discriminate | contradiction].
Qed.
End StarLoopFacts.

Lemma lang_Cat_intro (a b : regex) (p : nat) (w1 w2 : str) :
  lang a p w1 -> lang b (p + List.length w1) w2 -> lang (Cat a b) p (w1 ++ w2).
Proof. intros H1 H2. exists w1, w2. auto. Qed.

Lemma lang_Cls_intro (f : ascii -> bool) (p : nat) (c : ascii) :
  f c = true -> lang (Cls f) p [c].
Proof. intros H. exists c. auto. Qed.

Lemma lang_Chr_intro (p : nat) (c : ascii) : lang (Chr c) p [c].
Proof. apply lang_Cls_intro, Ascii.eqb_refl. Qed.

Lemma bt_sound (r : regex) : forall A pos s cs (k : nat -> str -> caps -> option A) x,
  bt r pos s cs k = Some x ->
  exists w s' cs',
    s = w ++ s' /\ lang r pos w /\ k (pos + List.length w) s' cs' = Some x.
Proof.
  induction r as [| | f | a IHa b IHb | a IHa | i a IHa]; intros A pos s cs k x H;
    simpl in H.
  - exists [], s, cs. simpl. now rewrite Nat.add_0_r.
  - destruct (Nat.eqb_spec pos 0) as [->|]; [|discriminate].
    exists [], s, cs. simpl. auto.
  - destruct s as [|c s]; [discriminate|].
    destruct (f c) eqn:Hf; [|discriminate].
    exists [c], s, cs. simpl. rewrite Nat.add_1_r. eauto.
  - apply IHa in H as (w1 & s1 & cs1 & -> & H1 & H).
    apply IHb in H as (w2 & s2 & cs2 & -> & H2 & H).
    exists (w1 ++ w2), s2, cs2. rewrite length_app, Nat.add_assoc, app_assoc.
    simpl. eauto 8.
  - apply star_loop_sound with (L := lang a) in H; [exact H|].
    intros p0 s0 cs0 k0 x0 Hb. now apply IHa in Hb.
  - apply IHa in H as (w & s' & cs' & -> & Hw & H). simpl. eauto 8.
Qed.

Lemma bt_complete (r : regex) : forall A pos w s' (k : nat -> str -> caps -> option A),
  lang r pos w ->
  (forall cs', k (pos + List.length w) s' cs' <> None) ->
  forall cs, bt r pos (w ++ s') cs k <> None.
Proof.
  induction r as [| | f | a IHa b IHb | a IHa | i a IHa]; intros A pos w s' k Hw Hk cs;
    simpl in *.
  - subst w. simpl in *. rewrite Nat.add_0_r in Hk. apply Hk.
  - destruct Hw as [-> ->]. simpl in *. apply Hk.
  - destruct Hw as (c & -> & Hf). simpl in *. rewrite Hf, <- Nat.add_1_r. apply Hk.
  - destruct Hw as (w1 & w2 & -> & H1 & H2). rewrite <- app_assoc.
    apply IHa; [exact H1|]. intros cs'. apply IHb; [exact H2|].
    intros cs''. rewrite <- Nat.add_assoc, <- length_app. apply Hk.
  - apply star_loop_complete with (L := lang a); auto.
  - apply IHa; [exact Hw|]. intros cs'. apply Hk.
Qed.

(** [match_at] succeeds exactly when a prefix of the text is in the language. *)
Lemma match_at_iff (r : regex) (pos : nat) (s : str) :
  match_at r pos s <> None <-> exists w rest, s = w ++ rest /\ lang r pos w.
Proof.
  unfold match_at. split.
  - destruct (bt r pos s [] _) as [m|] eqn:E; [intros _|congruence].
    apply bt_sound in E as (w & s' & _ & -> & Hw & _). eauto.
  - intros (w & rest & -> & Hw). apply bt_complete; [exact Hw | discriminate].
Qed.

(** A pattern that begins with [^] can only match at offset 0. *)
Lemma search_from_bol (r : regex) (s : str) : forall pos,
  search_from (Cat Bol r) (S pos) s = None.
Proof.
  induction s as [|c s IH]; intros pos; simpl; [reflexivity | apply IH].
Qed.

Lemma search_bol_iff (r : regex) (s : str) :
  search (Cat Bol r) s <> None <-> exists w rest, s = w ++ rest /\ lang r 0 w.
Proof.
  unfold search.
  assert (E : search_from (Cat Bol r) 0 s = match_at (Cat Bol r) 0 s).
  { destruct s as [|c s]; simpl; destruct (match_at _ 0 _); auto using search_from_bol. }
  rewrite E, match_at_iff. split.
  - intros (w & rest & -> & w1 & w2 & -> & [_ ->] & Hw). simpl in *. eauto.
  - intros (w & rest & -> & Hw). exists w, rest. split; [reflexivity|].
    exists [], w. simpl. auto.
Qed.


End ReFacts.

(** ** The title pattern *)

Section TitleLanguage.
Import Re ReFacts.

Lemma upper_letters (c : ascii) :
  upper c = existsb (Ascii.eqb c) (lit "ABCDEFGHIJKLMNOPQRSTUVWXYZ").
Proof. destruct c as [[] [] [] [] [] [] [] []]; reflexivity. Qed.

Lemma digit09_digits (c : ascii) :
  digit09 c = existsb (Ascii.eqb c) (lit "0123456789").
Proof. destruct c as [[] [] [] [] [] [] [] []]; reflexivity. Qed.

Lemma digit19_digits (c : ascii) :
  digit19 c = existsb (Ascii.eqb c) (lit "123456789").
Proof. destruct c as [[] [] [] [] [] [] [] []]; reflexivity. Qed.

Lemma existsb_eqb_In (c : ascii) (l : str) :
  existsb (Ascii.eqb c) l = true <-> In c l.
Proof.
  rewrite existsb_exists. split.
  - intros (x & Hx & E). apply Ascii.eqb_eq in E. now subst.
  - intros H. exists c. split; [exact H | apply Ascii.eqb_refl].
Qed.

Lemma upper_spec (c : ascii) : upper c = true <-> uppercase_letter c.
Proof. rewrite upper_letters. apply existsb_eqb_In. Qed.

Lemma digit09_spec (c : ascii) : digit09 c = true <-> decimal_digit c.
Proof. rewrite digit09_digits. apply existsb_eqb_In. Qed.

Lemma digit19_spec (c : ascii) : digit19 c = true <-> nonzero_digit c.
Proof. rewrite digit19_digits. apply existsb_eqb_In. Qed.

Lemma lang_Lit (s : str) : forall p w, lang (Lit s) p w <-> w = s.
Proof.
  induction s as [|c s IH]; intros p w; simpl; [tauto|].
  split.
  - intros (w1 & w2 & -> & (c' & -> & E) & H2).
    apply Ascii.eqb_eq in E. subst c'. apply IH in H2. now subst.
  - intros ->. apply (@lang_Cat_intro (Chr c) (Lit s) p [c] s);
      [apply lang_Chr_intro | now apply IH].
Qed.

Lemma star_cls (f : ascii -> bool) (p : nat) (w : str) :
  star_lang (lang (Cls f)) p w <-> Forall (fun c => f c = true) w.
Proof.
  split.
  - induction 1 as [q | q w1 w2 (c & -> & Hc) _ IH]; [constructor|].
    simpl. now constructor.
  - intros H. revert p. induction H as [|c w Hc _ IH]; intros p; [constructor|].
    apply (@star_cons (lang (Cls f)) p [c] w); [|apply IH].
    exists c. now split.
Qed.

Lemma lang_AtLeast_cls (f : ascii -> bool) (n : nat) : forall p w,
  lang (AtLeast n (Cls f)) p w <->
  n <= List.length w /\ Forall (fun c => f c = true) w.
Proof.
  induction n as [|n IH]; intros p w; cbn [AtLeast].
  - change (lang (Star (Cls f)) p w) with (star_lang (lang (Cls f)) p w).
    rewrite star_cls. split; [intros H; split; [lia | exact H] | tauto].
  - split.
    + intros (w1 & w2 & -> & (c & -> & Hc) & H2). apply IH in H2 as [Hn Hall].
      simpl. split; [lia | now constructor].
    + intros [Hn Hall]. destruct w as [|c w]; [simpl in Hn; lia|].
      inversion Hall; subst.
      apply (@lang_Cat_intro (Cls f) (AtLeast n (Cls f)) p [c] w);
        [now apply lang_Cls_intro|].
      apply IH. simpl in Hn. split; [lia | assumption].
Qed.

Lemma Forall_upper (k : str) :
  Forall (fun c => upper c = true) k <-> Forall uppercase_letter k.
Proof. rewrite !Forall_forall. split; intros H c Hc; apply upper_spec, H, Hc. Qed.

Lemma Forall_digit (k : str) :
  Forall (fun c => digit09 c = true) k <-> Forall decimal_digit k.
Proof. rewrite !Forall_forall. split; intros H c Hc; apply digit09_spec, H, Hc. Qed.

(** The reference pattern matches exactly the ticket references. *)
Lemma lang_KEY_RE (p : nat) (w : str) : lang KEY_RE p w <-> ticket_reference w.
Proof.
  unfold KEY_RE, ticket_reference, ticket_key, ticket_number. split.
  - intros (k & r1 & -> & Hk & c1 & r2 & -> & (c & -> & Hc) & d1 & ds & -> &
            (d & -> & Hd) & Hds).
    apply Ascii.eqb_eq in Hc. subst c.
    apply lang_AtLeast_cls in Hk as [Hlen Hup].
    change (lang (Star (Cls digit09)) (p + List.length k + 1 + 1) ds)
      with (star_lang (lang (Cls digit09)) (p + List.length k + 1 + 1) ds) in Hds.
    apply star_cls in Hds.
    exists k, (d :: ds). repeat split; [exact Hlen | now apply Forall_upper |].
    exists d, ds. repeat split; [now apply digit19_spec | now apply Forall_digit].
  - intros (k & n & -> & [Hlen Hup] & d & ds & -> & Hd & Hds).
    apply lang_Cat_intro.
    + apply lang_AtLeast_cls. split; [exact Hlen | now apply Forall_upper].
    + apply (@lang_Cat_intro (Chr "-") _ _ (lit "-") (d :: ds));
        [apply lang_Chr_intro|].
      apply (@lang_Cat_intro (Cls digit19) _ _ [d] ds).
      * apply lang_Cls_intro. now apply digit19_spec.
      * apply star_cls. now apply Forall_digit.
Qed.

Lemma star_refs (p : nat) (w : str) :
  star_lang (lang (Group 2 (Cat KEY_RE (Lit (lit ", "))))) p w <->
  exists refs,
    Forall ticket_reference refs /\ w = List.concat (map (fun r => r ++ lit ", ") refs).
Proof.
  split.
  - induction 1 as [q | q w1 w2 H1 _ (refs & Hrefs & ->)].
    + exists []. split; [constructor | reflexivity].
    + destruct H1 as (r & sep & -> & Hr & Hsep).
      apply lang_KEY_RE in Hr. apply lang_Lit in Hsep. subst sep.
      exists (r :: refs). split; [now constructor | reflexivity].
  - intros (refs & Hrefs & ->). revert p.
    induction Hrefs as [|r refs Hr _ IH]; intros p; simpl; [constructor|].
    apply (@star_cons _ p (r ++ lit ", ")); [|apply IH].
    apply (@lang_Cat_intro KEY_RE (Lit (lit ", ")) p r (lit ", "));
      [now apply lang_KEY_RE | now apply lang_Lit].
Qed.

Lemma join_snoc (sep : str) (refs : list str) (x : str) :
  join sep (refs ++ [x]) = List.concat (map (fun r => r ++ sep) refs) ++ x.
Proof.
  induction refs as [|r refs IH]; [reflexivity|].
  cbn [app map List.concat].
  assert (E : join sep (r :: refs ++ [x]) = r ++ sep ++ join sep (refs ++ [x])).
  { destruct (refs ++ [x]) eqn:E; [now destruct refs | reflexivity]. }
  rewrite E, IH, <- !app_assoc. reflexivity.
Qed.

Lemma lang_KEYS_RE (p : nat) (w : str) : lang KEYS_RE p w <-> ticket_list w.
Proof.
  unfold KEYS_RE, ticket_list. split.
  - intros (w1 & w2 & -> & H1 & H2).
    apply star_refs in H1 as (refs & Hrefs & ->). apply lang_KEY_RE in H2.
    exists (refs ++ [w2]). repeat split.
    + now destruct refs.
    + apply Forall_app. split; [exact Hrefs | now constructor].
    + symmetry. apply join_snoc.
  - intros (refs & Hne & Hrefs & ->).
    destruct (exists_last Hne) as (refs' & x & ->).
    apply Forall_app in Hrefs as [Hrefs Hx]. inversion Hx; subst.
    rewrite join_snoc.
    apply (@lang_Cat_intro (Star (Group 2 (Cat KEY_RE (Lit (lit ", ")))))
             (Group 3 KEY_RE) p);
      [apply star_refs; eauto | now apply lang_KEY_RE].
Qed.

(** The search of the title pattern succeeds exactly on the well-formed titles. *)
Lemma search_TITLE_RE (title : str) :
  search TITLE_RE title <> None <-> well_formed_title title.
Proof.
  unfold TITLE_RE. rewrite search_bol_iff. unfold well_formed_title. split.
  - intros (w & rest & -> & l & sep & -> & Hl & Hsep).
    apply lang_KEYS_RE in Hl. apply lang_Lit in Hsep. subst sep.
    exists l, rest. split; [exact Hl | now rewrite <- app_assoc].
  - intros (l & rest & Hl & ->). exists (l ++ lit ": "), rest.
    split; [now rewrite <- app_assoc|].
    apply lang_Cat_intro; [now apply lang_KEYS_RE | now apply lang_Lit].
Qed.

End TitleLanguage.

Lemma check_pr_title_code (title : str) (w : world) :
  fst (check_pr_title (Some title) w)
  = match Re.search TITLE_RE title with Some _ => 0%Z | None => 1%Z end.
Proof. unfold check_pr_title. now destruct (Re.search TITLE_RE title). Qed.

(** C1: for every title, [check_pr_title] returns 0 exactly when the title
    starts with one or more ticket references KEY-NUMBER (key: two or more
    uppercase ASCII letters; number: positive, no leading zero) separated by
    a comma and a space and followed by a colon and a space, and returns 1
    otherwise; the five titles of the specification give 0, 1, 1, 1 and 0. *)
Theorem C1_check_pr_title (title : str) (w : world) :
  (fst (check_pr_title (Some title) w) = 0%Z <-> well_formed_title title)
  /\ (fst (check_pr_title (Some title) w) = 1%Z <-> ~ well_formed_title title)
  /\ fst (check_pr_title (Some (lit "JIRA-42: fix")) w) = 0%Z
  /\ fst (check_pr_title (Some (lit "J-12: fix")) w) = 1%Z
  /\ fst (check_pr_title (Some (lit " JIRA-42: fix")) w) = 1%Z
  /\ fst (check_pr_title (Some (lit "JIRA-42:fix")) w) = 1%Z
  /\ fst (check_pr_title (Some (lit "JIRA-1, JIRA-2: fix")) w) = 0%Z.
Proof.
  pose proof (search_TITLE_RE title) as H.
  split; [|split].
  - rewrite check_pr_title_code. destruct (Re.search TITLE_RE title).
    + split; [intros _; apply H; discriminate | reflexivity].
    + split; [discriminate | intros Hw; apply H in Hw; congruence].
  - rewrite check_pr_title_code. destruct (Re.search TITLE_RE title).
    + split; [discriminate | intros Hn; exfalso; apply Hn, H; discriminate].
    + split; [intros _ Hw; apply H in Hw; congruence | reflexivity].
  - rewrite !check_pr_title_code. repeat split; reflexivity.
Qed.

(** ** The world *)


Lemma new_calls_refl (w : world) : new_calls w w = [].
Proof. unfold new_calls. apply skipn_all. Qed.

Lemma new_calls_app (w w' : world) (cs : list call) :
  trace w' = trace w ++ cs -> new_calls w w' = cs.
Proof.
  unfold new_calls. intros ->. rewrite skipn_app, skipn_all, Nat.sub_diag.
  reflexivity.
Qed.

(** ** Tag normalization *)

Lemma scan_Cls (f : ascii -> bool) (s : str) : forall fuel pos,
  List.length s <= fuel ->
  Re.scan fuel (Re.Cls f) pos s = map (fun c => if f c then inr [c] else inl c) s.
Proof.
  induction s as [|c s IH]; intros fuel pos Hf.
  - now destruct fuel.
  - destruct fuel as [|fuel]; [simpl in Hf; lia|].
    cbn [Re.scan Re.match_at Re.bt map]. simpl in Hf.
    destruct (f c); cbn [Re.m_end].
    + replace (S pos - pos) with 1 by lia.
      cbn [firstn skipn]. now rewrite IH by lia.
    + now rewrite IH by lia.
Qed.

Lemma sub_Cls (f : ascii -> bool) (repl s : str) :
  Re.sub (Re.Cls f) repl s = flat_map (fun c => if f c then repl else [c]) s.
Proof.
  unfold Re.sub. rewrite scan_Cls by lia.
  induction s as [|c s IH]; [reflexivity|].
  cbn [map flat_map]. rewrite IH. now destruct (f c).
Qed.

(** Normalization replaces, character by character. *)
Lemma normalize_map (tag : str) :
  normalize tag = map (fun c => if not_tag_char c then "_"%char else c) tag.
Proof.
  unfold normalize. rewrite sub_Cls.
  induction tag as [|c tag IH]; [reflexivity|].
  cbn [map flat_map]. rewrite IH. now destruct (not_tag_char c).
Qed.

(** C7: the tag normalization of [post_tagged_comment] is idempotent:
    normalizing a normalized tag changes nothing. *)
Theorem C7_normalize_idempotent (tag : str) :
  normalize (normalize tag) = normalize tag.
Proof.
  rewrite !normalize_map, map_map. apply map_ext. intros c.
  destruct (not_tag_char c) eqn:E; [reflexivity | now rewrite E].
Qed.

(** ** Tagged comments *)

Section TaggedComments.
Variables T F : str.

Let untagged (cs : list str) : Prop := Forall (fun c => startswith c T = false) cs.

Lemma count_tagged_0 (cs : list str) : count_tagged T cs = 0 <-> untagged cs.
Proof.
  unfold count_tagged, untagged. induction cs as [|c cs IH]; simpl.
  - split; [constructor | reflexivity].
  - destruct (startswith c T) eqn:E; simpl.
    + split; [discriminate | intros H; inversion H; congruence].
    + rewrite IH. split; [now constructor | intros H; now inversion H].
Qed.



(** Either no comment carries the marker, or there is a first one. *)
Lemma first_tagged (cs : list str) :
  untagged cs \/
  exists pre c post, cs = pre ++ c :: post /\ untagged pre /\ startswith c T = true.
Proof.
  induction cs as [|c cs IH]; [left; constructor|].
  destruct (startswith c T) eqn:E.
  - right. exists [], c, cs. repeat split; [constructor | exact E].
  - destruct IH as [H | (pre & d & post & -> & Hpre & Hd)].
    + left. now constructor.
    + right. exists (c :: pre), d, post. repeat split; [now constructor | exact Hd].
Qed.

Lemma update_first_miss (cs : list str) : forall i,
  untagged cs -> update_first T F i cs = None.
Proof.
  induction cs as [|c cs IH]; intros i H; [reflexivity|].
  inversion H as [|? ? Hc Hcs]; subst. simpl. now rewrite Hc, IH.
Qed.

Lemma update_first_hit (pre : list str) (c : str) (post : list str) : forall i,
  untagged pre -> startswith c T = true ->
  update_first T F i (pre ++ c :: post)
  = Some (pre ++ F :: post,
          if str_eqb c F then [] else [EditComment (i + List.length pre) F]).
Proof.
  induction pre as [|d pre IH]; intros i Hpre Hc; simpl.
  - rewrite Hc, Nat.add_0_r. destruct (str_eqb c F) eqn:E; [|reflexivity].
    apply str_eqb_eq in E. now subst.
  - inversion Hpre as [|? ? Hd Hpre']; subst. rewrite Hd, IH by assumption.
    now rewrite Nat.add_succ_r.
Qed.

End TaggedComments.

Lemma marker_tagged (tag body : str) :
  startswith (full_body tag body) (marker tag) = true.
Proof. apply startswith_app. Qed.


(** No comment carries the marker: a new comment is created. *)
Lemma post_miss (tag body : str) (w : world) :
  count_tagged (marker tag) (comments w) = 0 ->
  post_tagged_comment tag body w = create_issue_comment (full_body tag body) w.
Proof.
  intros H. apply count_tagged_0 in H. unfold post_tagged_comment.
  change (html_tag_of (normalize tag)) with (marker tag).
  change (marker tag ++ [newline] ++ body) with (full_body tag body).
  now rewrite update_first_miss.
Qed.

(** A comment carries the marker: the first such comment is looked at, and
    edited unless it has the wanted body already. *)
Lemma post_hit (tag body : str) (w : world) (pre : list str) (c : str) (post : list str) :
  comments w = pre ++ c :: post ->
  count_tagged (marker tag) pre = 0 ->
  startswith c (marker tag) = true ->
  post_tagged_comment tag body w
  = fold_left (fun w c => log c w)
      (if str_eqb c (full_body tag body) then []
       else [EditComment (List.length pre) (full_body tag body)])
      (set_comments (pre ++ full_body tag body :: post) w).
Proof.
  intros Hcs Hpre Hc. apply count_tagged_0 in Hpre. unfold post_tagged_comment.
  change (html_tag_of (normalize tag)) with (marker tag).
  change (marker tag ++ [newline] ++ body) with (full_body tag body).
  rewrite Hcs, update_first_hit by assumption. reflexivity.
Qed.



(** ** The draft check *)

Lemma check_wip_code (w : world) : fst (check_wip w) = 0%Z.
Proof.
  unfold check_wip.
  destruct (py_ne _ _); [destruct (existsb _ _)|]; reflexivity.
Qed.

(** What [check_wip] does to the world. *)
Lemma check_wip_world (w : world) :
  (was_failing w = Some (is_draft w) /\ snd (check_wip w) = w)
  \/ (was_failing w <> Some (is_draft w)
      /\ exists description,
           snd (check_wip w)
           = create_status (draft_state (is_draft w)) description WIP_CONTEXT w).
Proof.
  assert (E : check_wip w
              = if py_ne (is_draft w) (was_failing w) then
                  if is_draft w then
                    (0%Z, create_status (lit "failure")
                            (lit "Has the " ++ [Ascii.ascii_of_nat 34] ++ WIP_LABEL
                               ++ [Ascii.ascii_of_nat 34] ++ lit " label")
                            WIP_CONTEXT w)
                  else
                    (0%Z, create_status (lit "success")
                            (lit "Does not have the " ++ [Ascii.ascii_of_nat 34]
                               ++ WIP_LABEL ++ [Ascii.ascii_of_nat 34] ++ lit " label")
                            WIP_CONTEXT w)
                else (0%Z, w)) by reflexivity.
  rewrite E. clear E.
  destruct (was_failing w) as [[|]|]; destruct (is_draft w); cbn [py_ne Bool.eqb negb snd];
    first [ left; split; reflexivity
          | right; split; [discriminate | eexists; reflexivity] ].
Qed.

Lemma is_draft_create_status (state description context : str) (w : world) :
  is_draft (create_status state description context w) = is_draft w.
Proof. reflexivity. Qed.

(** The status just written is the one the next run finds. *)
Lemma was_failing_create_status (draft : bool) (description : str) (w : world) :
  was_failing (create_status (draft_state draft) description WIP_CONTEXT w)
  = Some draft.
Proof. now destruct draft. Qed.

(** The lookup of the draft check finds what the listing records. *)
Lemma was_failing_recorded (w : world) : was_failing w = recorded_failing w.
Proof.
  unfold was_failing, recorded_failing, draft_statuses, get_status.
  change WIP_CONTEXT with (lit "Draft").
  induction (statuses w) as [|s l IH]; cbn [find filter]; [reflexivity|].
  now destruct (str_eqb (st_context s) (lit "Draft")).
Qed.

Lemma recorded_failing_none (w : world) :
  Forall (fun st => st_context st <> lit "Draft") (statuses w) ->
  recorded_failing w = None.
Proof.
  unfold recorded_failing, draft_statuses.
  induction 1 as [|s l Hs _ IH]; cbn [filter]; [reflexivity|].
  apply str_eqb_neq in Hs. now rewrite Hs.
Qed.

(** C2: [check_wip] writes a status under the Draft context only when "is
    currently draft" (the draft label is among the labels) differs from
    the recorded "was failing" (the state of the most recent status listed
    under the Draft context is not success; [None] without such a status),
    and makes no call when they are equal; the lookup of the code finds
    this recorded value; a second run with the same labels is a no-op, so
    two runs write at most one status; the return value is always 0. *)
Theorem C2_check_wip (w : world) :
  let w1 := snd (check_wip w) in
  let w2 := snd (check_wip w1) in
  fst (check_wip w) = 0%Z
  /\ fst (check_wip w1) = 0%Z
  /\ was_failing w = recorded_failing w
  /\ (recorded_failing w = Some (is_draft w) -> w1 = w /\ new_calls w w1 = [])
  /\ (recorded_failing w <> Some (is_draft w) ->
      exists st,
        st_context st = lit "Draft"
        /\ st_state st = draft_state (is_draft w)
        /\ statuses w1 = st :: statuses w
        /\ new_calls w w1 = [CreateStatus st])
  /\ w2 = w1
  /\ List.length (status_writes (new_calls w w2)) <= 1.
Proof.
  intros w1 w2.
  assert (H2 : w2 = w1).
  { subst w2. destruct (check_wip_world w1) as [[_ E] | [Hne _]]; [exact E|].
    exfalso. apply Hne. subst w1.
    destruct (check_wip_world w) as [[Heq ->] | [_ (d & ->)]]; [exact Heq|].
    now rewrite was_failing_create_status, is_draft_create_status. }
  split; [apply check_wip_code|]. split; [apply check_wip_code|].
  split; [apply was_failing_recorded|].
  rewrite <- was_failing_recorded.
  destruct (check_wip_world w) as [[Heq E] | [Hne (d & E)]]; fold w1 in E.
  - split; [intros _; split; [exact E | rewrite E; apply new_calls_refl]|].
    split; [intros Hne; contradiction|]. split; [exact H2|].
    rewrite H2, E, new_calls_refl. simpl. lia.
  - split; [intros Heq; contradiction|].
    split; [|split; [exact H2|]].
    + intros _.
      exists {| st_state := draft_state (is_draft w); st_description := d;
                st_context := WIP_CONTEXT |}.
      rewrite E. repeat split; try reflexivity. now apply new_calls_app.
    + rewrite H2, E.
      rewrite (@new_calls_app w _ [CreateStatus
                 {| st_state := draft_state (is_draft w); st_description := d;
                    st_context := WIP_CONTEXT |}]) by reflexivity.
      simpl. lia.
Qed.

(** C10: when no status with the context Draft is listed for the head
    commit (whatever statuses of other contexts are), the lookup of the
    code returns [None], which differs from either boolean, so [check_wip]
    writes a status whatever the labels are: failure for a draft, and
    success for a pull request that is not a draft. *)
Theorem C10_first_run_writes (w : world) :
  Forall (fun st => st_context st <> lit "Draft") (statuses w) ->
  get_status WIP_CONTEXT w = None
  /\ exists st,
       new_calls w (snd (check_wip w)) = [CreateStatus st]
       /\ statuses (snd (check_wip w)) = st :: statuses w
       /\ st_context st = lit "Draft"
       /\ st_state st = draft_state (is_draft w)
       /\ (is_draft w = false -> st_state st = lit "success").
Proof.
  intros Hnone. apply recorded_failing_none in Hnone.
  rewrite <- was_failing_recorded in Hnone.
  split; [unfold was_failing in Hnone; now destruct (get_status WIP_CONTEXT w)|].
  destruct (check_wip_world w) as [[Heq _] | [_ (d & E)]].
  - rewrite Hnone in Heq. discriminate.
  - exists {| st_state := draft_state (is_draft w); st_description := d;
              st_context := WIP_CONTEXT |}.
    rewrite E. split; [now apply new_calls_app|].
    simpl. repeat split. now intros ->.
Qed.

(** The first run on a pull request without labels whose head commit has
    a status of the build only: the success status is written. *)
Lemma C10_first_run_witness :
  Forall (fun st => st_context st <> lit "Draft") (statuses built_world)
  /\ get_status WIP_CONTEXT built_world = None
  /\ exists st,
       new_calls built_world (snd (check_wip built_world)) = [CreateStatus st]
       /\ statuses (snd (check_wip built_world)) = st :: statuses built_world
       /\ st_context st = lit "Draft"
       /\ st_state st = draft_state (is_draft built_world)
       /\ (is_draft built_world = false -> st_state st = lit "success").
Proof.
  assert (H : Forall (fun st => st_context st <> lit "Draft") (statuses built_world))
    by (repeat constructor; discriminate).
  split; [exact H | exact (C10_first_run_writes built_world H)].
Defined.

(** ** The event cache *)

Module EventCacheFacts.
Import EventCache.

(** A cache that holds a value answers from memory. *)
Lemma call_cached (h : host) (c : cache) :
  is_None (_event c) = false -> call h c = (Ret (_event c), c).
Proof. unfold call. now intros ->. Qed.

(** The first call reads the file once and stores what it parsed. *)
Lemma call_first (h : host) (path text : str) (v : pyval) :
  environ h (lit "GITHUB_EVENT_PATH") = Some path ->
  file_content h path = Some text ->
  json_loads h text = Some v ->
  call h init = (Ret v, {| _event := v; reads := 1 |}).
Proof. unfold call. simpl. now intros -> -> ->. Qed.

Lemma call_reads (h : host) (c : cache) :
  reads c <= reads (snd (call h c)) <= S (reads c).
Proof.
  unfold call. destruct (is_None (_event c)); [|simpl; lia].
  destruct (environ h _); [|simpl; lia].
  destruct (file_content h _); [|simpl; lia].
  destruct (json_loads h _); simpl; lia.
Qed.

(** A successful access leaves a dictionary in the cache. *)
Lemma pull_request_ok (h : host) (c c' : cache) (v : pyval) :
  pull_request h c = (Ret v, c') ->
  exists items,
    _event c' = PyDict items /\ dict_get items (lit "pull_request") = Some v
    /\ reads c' <= S (reads c).
Proof.
  unfold pull_request. pose proof (call_reads h c) as Hr.
  destruct (call h c) as [r c1] eqn:E. simpl in Hr.
  destruct r as [x|e]; simpl; [|discriminate].
  assert (Hx : _event c1 = x).
  { unfold call in E. destruct (is_None (_event c)).
    - destruct (environ h _); [|discriminate].
      destruct (file_content h _); [|discriminate].
      destruct (json_loads h _); [|discriminate].
      now inversion E.
    - now inversion E. }
  destruct x as [| | | | | |items]; simpl; try discriminate.
  destruct (dict_get items _) as [y|] eqn:G; [|discriminate].
  intros H. inversion H; subst. exists items. repeat split; try assumption. lia.
Qed.

Lemma pull_request_reads (h : host) (c : cache) :
  reads (snd (pull_request h c)) <= S (reads c).
Proof.
  unfold pull_request. pose proof (call_reads h c) as Hr.
  destruct (call h c) as [r c1]. simpl in *. lia.
Qed.

(** Once the cache holds a dictionary, further accesses neither read the
    file nor change the cache, and all return the same stored value. *)
Lemma accesses_cached (h : host) (items : list (str * pyval)) (v : pyval)
    (n : nat) (c : cache) :
  _event c = PyDict items ->
  dict_get items (lit "pull_request") = Some v ->
  accesses h n c = (Ret (repeat v n), c).
Proof.
  intros Hc Hv.
  assert (Hp : pull_request h c = (Ret v, c)).
  { unfold pull_request. rewrite call_cached by now rewrite Hc.
    rewrite Hc. cbn [bind subscript]. now rewrite Hv. }
  induction n as [|n IH]; simpl; [reflexivity|].
  now rewrite Hp, IH.
Qed.

End EventCacheFacts.

(** A payload that decodes to [None] is read again by every call. *)
Lemma cache_calls_none (h : EventCache.host) (path text : str) :
  EventCache.environ h (lit "GITHUB_EVENT_PATH") = Some path ->
  EventCache.file_content h path = Some text ->
  EventCache.json_loads h text = Some EventCache.PyNone ->
  forall n k,
    cache_calls h n {| EventCache._event := EventCache.PyNone; EventCache.reads := k |}
    = (repeat (Ret EventCache.PyNone) n,
       {| EventCache._event := EventCache.PyNone; EventCache.reads := n + k |}).
Proof.
  intros He Hf Hj. induction n as [|n IH]; intros k; [reflexivity|].
  cbn [cache_calls]. unfold EventCache.call.
  cbn [EventCache._event EventCache.is_None EventCache.reads].
  rewrite He, Hf, Hj, IH. cbn [repeat]. now rewrite Nat.add_succ_r.
Qed.

(** A cache that holds a value serves every call from memory. *)
Lemma cache_calls_cached (h : EventCache.host) (c : EventCache.cache) :
  EventCache.is_None (EventCache._event c) = false ->
  forall n, cache_calls h n c = (repeat (Ret (EventCache._event c)) n, c).
Proof.
  intros Hc. induction n as [|n IH]; [reflexivity|].
  cbn [cache_calls]. rewrite EventCacheFacts.call_cached by exact Hc.
  now rewrite IH.
Qed.

(** What a process that only evaluates [GH_EVENT()["pull_request"]] reads. *)
Lemma accesses_reads (h : EventCache.host) (m : nat) :
  EventCache.reads (snd (EventCache.accesses h (S m) EventCache.init)) <= 1
  /\ (forall vs,
        fst (EventCache.accesses h (S m) EventCache.init) = Ret vs ->
        snd (EventCache.accesses h (S m) EventCache.init)
        = snd (EventCache.pull_request h EventCache.init)
        /\ EventCache.reads (snd (EventCache.accesses h (S m) EventCache.init)) = 1
        /\ exists v, vs = repeat v (S m)).
Proof.
  cbn [EventCache.accesses].
  pose proof (EventCacheFacts.pull_request_reads h EventCache.init) as Hr.
  destruct (EventCache.pull_request h EventCache.init) as [[v|e] c1] eqn:E;
    simpl in Hr; [|simpl; split; [lia | discriminate]].
  destruct (@EventCacheFacts.pull_request_ok h _ _ _ E) as (items & Hc1 & Hv & _).
  rewrite (@EventCacheFacts.accesses_cached h items v m c1 Hc1 Hv). simpl.
  split; [lia|]. intros vs Hvs. split; [reflexivity|]. split.
  - unfold EventCache.pull_request, EventCache.call in E. simpl in E.
    destruct (EventCache.environ h _); [|discriminate].
    destruct (EventCache.file_content h _); [|discriminate].
    destruct (EventCache.json_loads h _); [|discriminate].
    simpl in E. inversion E. reflexivity.
  - exists v. now inversion Hvs.
Qed.

(** C8 (amended): for a payload that is read and decodes to a value [v]
    other than [None], the event cache reads and parses the file at most
    once per process: the first call reads, parses and stores [v]; any
    number [n] of calls in a row all return [v] and leave the file read
    once (not at all for no call); and every call on a cache that holds a
    value returns it without reading.  A payload that decodes to [None]
    cannot be told from an empty cache: [n] calls read it [n] times.  In
    the script, where every use of the cache is the access to the pull
    request and an exception ends the process, the file is read once at
    most whatever the payload is. *)
Theorem C8_event_read_once (h : EventCache.host) (n : nat) :
  (forall path text v,
     EventCache.environ h (lit "GITHUB_EVENT_PATH") = Some path ->
     EventCache.file_content h path = Some text ->
     EventCache.json_loads h text = Some v ->
     (EventCache.is_None v = false ->
      EventCache.call h EventCache.init
      = (Ret v, {| EventCache._event := v; EventCache.reads := 1 |})
      /\ cache_calls h n EventCache.init
         = (repeat (Ret v) n,
            {| EventCache._event := (if Nat.eqb n 0 then EventCache.PyNone else v);
               EventCache.reads := Nat.min n 1 |})
      /\ EventCache.reads (snd (cache_calls h n EventCache.init)) <= 1)
     /\ (EventCache.is_None v = true ->
         fst (cache_calls h n EventCache.init) = repeat (Ret v) n
         /\ EventCache.reads (snd (cache_calls h n EventCache.init)) = n))
  /\ (forall c,
        EventCache.is_None (EventCache._event c) = false ->
        EventCache.call h c = (Ret (EventCache._event c), c)
        /\ cache_calls h n c = (repeat (Ret (EventCache._event c)) n, c))
  /\ EventCache.reads (snd (EventCache.accesses h n EventCache.init)) <= 1
  /\ (forall vs,
        fst (EventCache.accesses h (S n) EventCache.init) = Ret vs ->
        snd (EventCache.accesses h (S n) EventCache.init)
        = snd (EventCache.pull_request h EventCache.init)
        /\ EventCache.reads (snd (EventCache.accesses h (S n) EventCache.init)) = 1
        /\ exists v, vs = repeat v (S n)).
Proof.
  split; [|split; [|split]].
  - intros path text v He Hf Hj. split; intros Hv.
    + assert (E : cache_calls h n EventCache.init
                  = (repeat (Ret v) n,
                     {| EventCache._event := (if Nat.eqb n 0 then EventCache.PyNone else v);
                        EventCache.reads := Nat.min n 1 |})).
      { destruct n as [|m]; [reflexivity|].
        cbn [cache_calls]. rewrite (EventCacheFacts.call_first h He Hf Hj).
        rewrite cache_calls_cached by exact Hv.
        cbn [EventCache._event repeat Nat.eqb]. now destruct m. }
      split; [exact (EventCacheFacts.call_first h He Hf Hj)|].
      split; [exact E|]. rewrite E. cbn [snd EventCache.reads]. lia.
    + destruct v; try discriminate.
      unfold EventCache.init. rewrite (cache_calls_none h He Hf Hj), Nat.add_0_r.
      split; reflexivity.
  - intros c Hc. split; [now apply EventCacheFacts.call_cached|].
    now apply cache_calls_cached.
  - destruct n; [simpl; lia | apply accesses_reads].
  - apply accesses_reads.
Qed.

(** Three calls on a payload that holds a pull request: one read. *)
Lemma C8_event_read_once_witness :
  cache_calls event_host 3 EventCache.init
  = (repeat (Ret (EventCache.PyDict
                    [(lit "pull_request",
                      EventCache.PyDict [(lit "number", EventCache.PyInt 7)])])) 3,
     {| EventCache._event :=
          EventCache.PyDict
            [(lit "pull_request",
              EventCache.PyDict [(lit "number", EventCache.PyInt 7)])];
        EventCache.reads := 1 |}).
Proof.
  apply (proj1 (C8_event_read_once event_host 3)
           (lit "/github/workflow/event.json") (lit "{...}")
           (EventCache.PyDict
              [(lit "pull_request",
                EventCache.PyDict [(lit "number", EventCache.PyInt 7)])])
           eq_refl eq_refl eq_refl).
  reflexivity.
Defined.

(** The claim as written fails for a payload that holds the JSON text
    null: two calls read the file twice, the second call reading again
    although the first one returned. *)
Lemma C8_counterexample :
  cache_calls null_host 2 EventCache.init
  = ([Ret EventCache.PyNone; Ret EventCache.PyNone],
     {| EventCache._event := EventCache.PyNone; EventCache.reads := 2 |})
  /\ EventCache.call null_host (snd (EventCache.call null_host EventCache.init))
     = (Ret EventCache.PyNone,
        {| EventCache._event := EventCache.PyNone; EventCache.reads := 2 |}).
Proof. split; reflexivity. Qed.

(** ** The check-run report *)

Lemma annotate_check_world (h : host) (check_name : str) (success : bool)
    (annotations : list annotation) (w : world) :
  annotate_check h check_name success annotations w
  = (if accepted h w (report w success annotations) then Ret tt
     else Raise (HTTPError (http_post h (check_url w) (report w success annotations))),
     log (Post (check_url w) (report w success annotations)) w).
Proof.
  unfold annotate_check, accepted.
  fold (check_url w). fold (report w success annotations).
  now destruct (_ && _).
Qed.

(** C9: whatever the annotations are, [annotate_check] makes one call, the
    POST of the report to the check-runs address, and the report carries
    the whole list: nothing is cut off or split into several requests. *)
Theorem C9_annotate_check_single_post (h : host) (check_name : str) (success : bool)
    (annotations : list annotation) (w : world) :
  exists data,
    new_calls w (snd (annotate_check h check_name success annotations w))
    = [Post (head_repo_url (event w) ++ lit "/check-runs") data]
    /\ cr_annotations data = annotations
    /\ posted (new_calls w (snd (annotate_check h check_name success annotations w)))
       = [data].
Proof.
  exists (report w success annotations). rewrite annotate_check_world.
  rewrite (@new_calls_app w _ [Post (check_url w) (report w success annotations)])
    by reflexivity.
  repeat split.
Qed.

(** ** Severity of a finding *)

Lemma contains_EW (c : ascii) :
  contains (lit "EW") [c] = true <-> c = "E"%char \/ c = "W"%char.
Proof.
  cbn [lit list_ascii_of_string contains startswith].
  rewrite !andb_true_r, orb_false_r, orb_true_iff, !Ascii.eqb_eq. tauto.
Qed.

Lemma failure_not_warning : lit "failure" <> lit "warning".
Proof. cbv. discriminate. Qed.

(** The level of a finding whose code is a string with a first character. *)
Lemma level_code (li : EventCache.pyval) (c : ascii) (rest : str) :
  EventCache.subscript li (lit "code") = Ret (EventCache.PyStr (c :: rest)) ->
  level li = Ret (if contains (lit "EW") [c] then lit "failure" else lit "warning").
Proof. unfold level. now intros ->. Qed.

Lemma level_pep8 (c : ascii) :
  let lv := if contains (lit "EW") [c] then lit "failure" else lit "warning" in
  (lv = lit "failure" <-> pep8 c) /\ (lv = lit "warning" <-> ~ pep8 c).
Proof.
  unfold pep8. pose proof (contains_EW c) as H.
  pose proof failure_not_warning as Hd.
  destruct (contains (lit "EW") [c]); cbv zeta; split; split; intros G.
  - now apply H.
  - reflexivity.
  - contradiction.
  - exfalso. apply G. now apply H.
  - symmetry in G. contradiction.
  - apply H in G. discriminate.
  - intros G'. apply H in G'. discriminate.
  - reflexivity.
Qed.

(** What an annotation that was built holds. *)
Lemma make_annotation_inv (h : host) (fn : str) (li : EventCache.pyval)
    (a : annotation) :
  make_annotation h fn li = Ret a ->
  exists line column code text lv,
    EventCache.subscript li (lit "line_number") = Ret line
    /\ EventCache.subscript li (lit "column_number") = Ret column
    /\ EventCache.subscript li (lit "code") = Ret code
    /\ EventCache.subscript li (lit "text") = Ret text
    /\ level li = Ret lv
    /\ a = {| path := fn;
              start_line := line; end_line := line;
              start_column := column; end_column := column;
              annotation_level := lv;
              message := py_str h code ++ lit ": " ++ py_str h text |}.
Proof.
  unfold make_annotation.
  destruct (EventCache.subscript li (lit "line_number")) as [line|e]; cbn [bind];
    [|discriminate].
  destruct (EventCache.subscript li (lit "column_number")) as [column|e]; cbn [bind];
    [|discriminate].
  destruct (level li) as [lv|e]; cbn [bind]; [|discriminate].
  destruct (EventCache.subscript li (lit "code")) as [code|e]; cbn [bind];
    [|discriminate].
  destruct (EventCache.subscript li (lit "text")) as [text|e]; cbn [bind];
    [|discriminate].
  intros H. injection H as <-. now exists line, column, code, text, lv.
Qed.

(** The level of an annotation follows the first character of the code. *)
Lemma make_annotation_level (h : host) (fn : str) (li : EventCache.pyval)
    (c : ascii) (rest : str) (a : annotation) :
  EventCache.subscript li (lit "code") = Ret (EventCache.PyStr (c :: rest)) ->
  make_annotation h fn li = Ret a ->
  path a = fn
  /\ (annotation_level a = lit "failure" <-> pep8 c)
  /\ (annotation_level a = lit "warning" <-> ~ pep8 c).
Proof.
  intros Hc Ha.
  apply make_annotation_inv in Ha
    as (line & column & code & text & lv & _ & _ & _ & _ & Hlv & ->).
  rewrite (level_code li Hc) in Hlv. injection Hlv as <-.
  cbn [path annotation_level]. split; [reflexivity | apply level_pep8].
Qed.

(** A finding of the linter's format always gets its annotation. *)
Lemma make_annotation_finding (h : host) (fn filename code text : str)
    (line column : Z) (c : ascii) (rest : str) :
  code = c :: rest ->
  make_annotation h fn (flake8_finding filename code text line column)
  = Ret {| path := fn;
           start_line := EventCache.PyInt line; end_line := EventCache.PyInt line;
           start_column := EventCache.PyInt column;
           end_column := EventCache.PyInt column;
           annotation_level :=
             if contains (lit "EW") [c] then lit "failure" else lit "warning";
           message := code ++ lit ": " ++ text |}.
Proof. intros ->. reflexivity. Qed.

Lemma append_annotations_spec (h : host) (fn : str) (lis : list EventCache.pyval) :
  forall anns anns',
    append_annotations h fn lis anns = Ret anns' ->
    exists news,
      anns' = anns ++ news
      /\ Forall2 (fun li a => make_annotation h fn li = Ret a) lis news.
Proof.
  induction lis as [|li lis IH]; intros anns anns' H; simpl in H.
  - inversion H; subst. exists []. now rewrite app_nil_r.
  - destruct (make_annotation h fn li) as [a|e] eqn:E; [|discriminate].
    simpl in H. apply IH in H as (news & -> & Hall).
    exists (a :: news). rewrite <- app_assoc. split; [reflexivity | now constructor].
Qed.

(** ** The lint loop *)

Lemma bind_Ret (A : Type) (r : result A) : bind r (fun a => Ret a) = r.
Proof. now destruct r. Qed.

(** Of the two profiles exactly the one of the mode is run on a file. *)
Lemma lint_linters_active (h : host) (checks_api : bool) (tempdir fn : str) (st : acc) :
  lint_linters h checks_api tempdir (use_linters_of checks_api) fn LINTERS st
  = lint_one h checks_api tempdir fn (active_name checks_api)
      (active_opts checks_api) st.
Proof.
  destruct checks_api.
  - change (lint_linters h true tempdir (use_linters_of true) fn LINTERS st)
      with (bind (lint_one h true tempdir fn (active_name true) (active_opts true) st)
              (fun a => Ret a)).
    apply bind_Ret.
  - change (lint_linters h false tempdir (use_linters_of false) fn LINTERS st)
      with (bind (lint_one h false tempdir fn (active_name false) (active_opts false) st)
              (fun a => Ret a)).
    apply bind_Ret.
Qed.

Lemma dict_set_not_nil (V : Type) (d : list (str * V)) (key : str) (v : V) :
  dict_set d key v <> [].
Proof. destruct d as [|[k x] d]; simpl; [|destruct (str_eqb k key)]; discriminate. Qed.

(** One linter run: the exit code decides whether the file is recorded. *)
Lemma lint_one_Ret (h : host) (checks_api : bool) (tempdir fn : str)
    (anns anns' : list annotation) (bad bad' : list (str * list str)) :
  lint_one h checks_api tempdir fn (active_name checks_api) (active_opts checks_api)
    (anns, bad) = Ret (anns', bad') ->
  (linter_exit h checks_api tempdir fn = Ret 0%Z /\ anns' = anns /\ bad' = bad)
  \/ (linter_exit h checks_api tempdir fn <> Ret 0%Z /\ bad' <> []).
Proof.
  unfold lint_one, linter_exit.
  destruct (prepare h tempdir fn _ _) as [[real_fn linter_cmd]|e]; simpl;
    [|discriminate].
  destruct (run_silent h (linter_cmd ++ [real_fn])) as [[rc out]|e]; simpl;
    [|discriminate].
  destruct (Z.eqb_spec rc 0) as [->|Hrc].
  - intros H. inversion H. now left.
  - intros H. right. split; [congruence|].
    destruct (if checks_api then _ else _) as [a|e]; simpl in H; [|discriminate].
    inversion H. apply dict_set_not_nil.
Qed.

Lemma lint_files_bad (h : host) (checks_api : bool) (tempdir : str)
    (files : list str) : forall anns bad anns' bad',
  lint_files h checks_api tempdir (use_linters_of checks_api) files (anns, bad)
  = Ret (anns', bad') ->
  (bad' = [] <-> bad = [] /\ clean h checks_api tempdir files).
Proof.
  unfold clean.
  induction files as [|fn files IH]; intros anns bad anns' bad' H;
    cbn [lint_files] in H.
  - inversion H; subst. split; [intros ->; split; [reflexivity | constructor] | tauto].
  - destruct (skipped fn) eqn:Hs.
    + apply IH in H. rewrite H. split; intros [Hb Hc]; split; auto.
      now inversion Hc.
    + rewrite lint_linters_active in H.
      destruct (lint_one h checks_api tempdir fn _ _ (anns, bad))
        as [[anns1 bad1]|e] eqn:E; [|discriminate].
      cbn [bind] in H. apply IH in H. rewrite H.
      apply lint_one_Ret in E as [(Hx & -> & ->) | (Hx & Hb)].
      * split; intros [Hb Hc]; split; auto. now inversion Hc.
      * split; [tauto|]. intros [_ Hc]. inversion Hc as [|? ? [Hk|Hk] _]; subst.
        -- congruence.
        -- contradiction.
Qed.

(** ** The worlds [lint] goes through *)

Lemma lint_unfold (h : host) (ext : list str) (checks_api : bool) (w : world) :
  lint h ext checks_api w
  = match lint_loop h ext checks_api w with
    | Raise e => (Raise e, snd (mkdtemp w))
    | Ret (annotations, bad) =>
        let w2 := rmtree (next_tmp w) (snd (mkdtemp w)) in
        if checks_api then
          let r := report w (is_nil bad) (if is_nil bad then [] else annotations) in
          (if accepted h w r then Ret (if is_nil bad then 0%Z else 1%Z)
           else Raise (HTTPError (http_post h (check_url w) r)),
           log (Post (check_url w) r) w2)
        else (Ret (if is_nil bad then 0%Z else 1%Z), w2)
    end.
Proof.
  unfold lint, lint_loop. cbn [mkdtemp snd].
  destruct (lint_files _ _ _ _ _ _) as [[annotations bad]|e]; [|reflexivity].
  set (w2 := rmtree (next_tmp w) _).
  destruct bad, checks_api; cbn [is_nil]; try reflexivity;
    rewrite annotate_check_world;
    change (report w2) with (report w); change (check_url w2) with (check_url w);
    change (accepted h w2) with (accepted h w);
    match goal with |- context [accepted h w ?r] => destruct (accepted h w r) end;
    reflexivity.
Qed.

Lemma new_calls_mkdtemp (w : world) :
  new_calls w (snd (mkdtemp w)) = [Mkdtemp (next_tmp w)].
Proof. now apply new_calls_app. Qed.

Lemma new_calls_rmtree (w : world) :
  new_calls w (rmtree (next_tmp w) (snd (mkdtemp w)))
  = [Mkdtemp (next_tmp w); Rmtree (next_tmp w)].
Proof. apply new_calls_app. simpl. now rewrite <- app_assoc. Qed.

Lemma new_calls_post (w : world) (url : str) (r : check_run) :
  new_calls w (log (Post url r) (rmtree (next_tmp w) (snd (mkdtemp w))))
  = [Mkdtemp (next_tmp w); Rmtree (next_tmp w); Post url r].
Proof. apply new_calls_app. simpl. now rewrite <- !app_assoc. Qed.

Lemma removed_after_rmtree (d : nat) (w : world) : ~ In d (tempdirs (rmtree d w)).
Proof.
  simpl. intros H. apply filter_In in H as [_ H].
  now rewrite Nat.eqb_refl in H.
Qed.

(** A notebook whose conversion fails stops the loop. *)
Lemma lint_files_conversion_fails (h : host) (checks_api : bool) (tempdir fn : str)
    (rest : list str) (st : acc) :
  skipped fn = false ->
  endswith fn (lit ".ipynb") = true ->
  conversion_fails h fn = true ->
  lint_files h checks_api tempdir (use_linters_of checks_api) (fn :: rest) st
  = Raise (RuntimeError (lit "Notebook conversion failed")).
Proof.
  intros Hs Hnb Hf. cbn [lint_files]. rewrite Hs, lint_linters_active.
  unfold lint_one, prepare. rewrite Hnb.
  unfold conversion_fails in Hf.
  destruct (run_silent h [lit "jupyter"; lit "nbconvert"; fn; lit "--to"; lit "script"])
    as [[rc out]|e]; [|discriminate].
  cbn [bind]. now rewrite Hf.
Qed.

(** C4, as the code has it: a run of [lint] that completes returns 0 when
    no file was recorded as bad (every linter run exited 0, or no file
    matched) and 1 otherwise, and in checks-API mode it has submitted
    exactly one report: failed with the collected annotations when a file
    was bad, successful with no annotation when none was.  With no matching
    file and the report accepted it returns 0 after the empty success
    report.  A run whose loop raises (a notebook conversion fails) returns
    no code and submits no report. *)
Theorem C4_lint_completed (h : host) (ext : list str) (checks_api : bool) (w : world) :
  (forall rc w',
     lint h ext checks_api w = (Ret rc, w') ->
     exists annotations bad,
       lint_loop h ext checks_api w = Ret (annotations, bad)
       /\ (bad = [] <-> clean h checks_api (tmp_path h (next_tmp w)) (globbed h ext))
       /\ (rc = 0%Z <-> bad = [])
       /\ (rc = 1%Z <-> bad <> [])
       /\ posted (new_calls w w')
          = if checks_api
            then [report w (is_nil bad) (if is_nil bad then [] else annotations)]
            else [])
  /\ (forall annotations bad,
        lint_loop h ext checks_api w = Ret (annotations, bad) ->
        (checks_api = true ->
         accepted h w (report w (is_nil bad) (if is_nil bad then [] else annotations))
         = true) ->
        exists w', lint h ext checks_api w
                   = (Ret (if is_nil bad then 0%Z else 1%Z), w'))
  /\ (globbed h ext = [] ->
      accepted h w (report w true []) = true ->
      exists w',
        lint h ext true w = (Ret 0%Z, w')
        /\ posted (new_calls w w') = [report w true []])
  /\ (forall e,
        lint_loop h ext checks_api w = Raise e ->
        fst (lint h ext checks_api w) = Raise e
        /\ posted (new_calls w (snd (lint h ext checks_api w))) = []).
Proof.
  split; [|split; [|split]].
  - intros rc w' H. rewrite lint_unfold in H.
    destruct (lint_loop h ext checks_api w) as [[annotations bad]|e] eqn:E;
      [|discriminate].
    exists annotations, bad. split; [reflexivity|].
    split.
    { unfold lint_loop in E. apply lint_files_bad in E. tauto. }
    cbv zeta in H.
    assert (Hrc : rc = if is_nil bad then 0%Z else 1%Z).
    { destruct checks_api; [destruct (accepted h w _)|]; now inversion H. }
    split; [|split].
    + rewrite Hrc. destruct bad; simpl; split; congruence.
    + rewrite Hrc. destruct bad; simpl; split; congruence.
    + destruct checks_api.
      * inversion H. now rewrite new_calls_post.
      * inversion H. now rewrite new_calls_rmtree.
  - intros annotations bad E Hacc. rewrite lint_unfold, E. cbv zeta.
    destruct checks_api; [rewrite Hacc by reflexivity|]; eexists; reflexivity.
  - intros Hnone Hacc. rewrite lint_unfold. unfold lint_loop. rewrite Hnone.
    cbn [lint_files is_nil]. cbv zeta. rewrite Hacc.
    eexists. split; [reflexivity|]. now rewrite new_calls_post.
  - intros e E. rewrite lint_unfold, E. cbn [fst snd].
    split; [reflexivity|]. now rewrite new_calls_mkdtemp.
Qed.

(** The claim as stated fails where a notebook conversion fails: [lint]
    raises, returns neither 0 nor 1 and submits no report. *)
Lemma C4_counterexample :
  fst (lint_notebooks notebook_host fresh_world)
  = Raise (RuntimeError (lit "Notebook conversion failed"))
  /\ posted (new_calls fresh_world (snd (lint_notebooks notebook_host fresh_world)))
     = [].
Proof. split; reflexivity. Qed.

(** C6, as the code has it: in every run of [lint] whose file loop
    completes, and so in every run that returns, the temporary directory is
    removed exactly once and does not exist afterwards.  When the loop
    raises, as it does when a notebook conversion fails, the error escapes
    before the removal: no removal takes place and the directory stays. *)
Theorem C6_tempdir_release (h : host) (ext : list str) (checks_api : bool) (w : world) :
  let d := next_tmp w in
  let w' := snd (lint h ext checks_api w) in
  (forall st,
     lint_loop h ext checks_api w = Ret st ->
     removals d (new_calls w w') = 1 /\ ~ In d (tempdirs w'))
  /\ (forall rc,
        fst (lint h ext checks_api w) = Ret rc ->
        removals d (new_calls w w') = 1 /\ ~ In d (tempdirs w'))
  /\ (forall e,
        lint_loop h ext checks_api w = Raise e ->
        fst (lint h ext checks_api w) = Raise e
        /\ removals d (new_calls w w') = 0 /\ In d (tempdirs w'))
  /\ (forall fn rest,
        globbed h ext = fn :: rest ->
        skipped fn = false ->
        endswith fn (lit ".ipynb") = true ->
        conversion_fails h fn = true ->
        fst (lint h ext checks_api w)
        = Raise (RuntimeError (lit "Notebook conversion failed"))
        /\ removals d (new_calls w w') = 0 /\ In d (tempdirs w')).
Proof.
  intros d w'.
  assert (Hret : forall st,
             lint_loop h ext checks_api w = Ret st ->
             removals d (new_calls w w') = 1 /\ ~ In d (tempdirs w')).
  { intros [annotations bad] E. subst w'. rewrite lint_unfold, E. cbv zeta.
    destruct checks_api; cbn [snd].
    - rewrite new_calls_post. split; [unfold removals; simpl; now rewrite Nat.eqb_refl|].
      apply (removed_after_rmtree d (snd (mkdtemp w))).
    - rewrite new_calls_rmtree. split; [unfold removals; simpl; now rewrite Nat.eqb_refl|].
      apply removed_after_rmtree. }
  assert (Hraise : forall e,
             lint_loop h ext checks_api w = Raise e ->
             fst (lint h ext checks_api w) = Raise e
             /\ removals d (new_calls w w') = 0 /\ In d (tempdirs w')).
  { intros e E. subst w'. rewrite lint_unfold, E. cbn [fst snd].
    rewrite new_calls_mkdtemp. repeat split. now left. }
  split; [exact Hret|]. split; [|split; [exact Hraise|]].
  - intros rc H. destruct (lint_loop h ext checks_api w) as [st|e] eqn:E.
    + now apply (Hret st).
    + rewrite lint_unfold, E in H. discriminate.
  - intros fn rest Hfiles Hs Hnb Hf. apply Hraise.
    unfold lint_loop. rewrite Hfiles. now apply lint_files_conversion_fails.
Qed.

(** The claim as stated fails where a notebook conversion fails: the
    directory [lint] created is never removed and still exists. *)
Lemma C6_counterexample :
  fst (lint_notebooks notebook_host fresh_world)
  = Raise (RuntimeError (lit "Notebook conversion failed"))
  /\ removals 0 (new_calls fresh_world (snd (lint_notebooks notebook_host fresh_world)))
     = 0
  /\ In 0 (tempdirs (snd (lint_notebooks notebook_host fresh_world))).
Proof. repeat split. now left. Qed.

(** ** The annotations of a run *)

Lemma make_annotation_PyStr (h : host) (fn s : str) (a : annotation) :
  make_annotation h fn (EventCache.PyStr s) <> Ret a.
Proof. discriminate. Qed.

(** The findings a completed inner loop has visited are the list under the
    first key of the report. *)
Lemma first_report_reported (h : host) (fn out : str)
    (lis : list EventCache.pyval) (news : list annotation) :
  first_report h out = Ret lis ->
  Forall2 (fun li a => make_annotation h fn li = Ret a) lis news ->
  match json_loads h out with
  | Some (EventCache.PyDict ((_, EventCache.PyList l) :: _)) => l
  | _ => []
  end = lis.
Proof.
  unfold first_report.
  destruct (json_loads h out) as [v|]; [|discriminate].
  destruct v as [| | | | | |items]; try discriminate.
  destruct items as [|[k x] items]; [discriminate|].
  cbn [first_key bind EventCache.subscript EventCache.dict_get].
  rewrite str_eqb_refl.
  destruct x as [| | | |s|l|d]; cbn [iterate]; try discriminate;
    intros H; injection H as <-; intros Hall.
  - destruct s as [|c s]; [reflexivity|].
    inversion Hall as [|? ? ? ? Ha _]; subst. now apply make_annotation_PyStr in Ha.
  - reflexivity.
  - destruct d as [|[k1 x1] d]; [reflexivity|].
    inversion Hall as [|? ? ? ? Ha _]; subst. now apply make_annotation_PyStr in Ha.
Qed.

(** One linter run in checks-API mode appends the annotations of the
    findings reported for the file, in their order. *)
Lemma lint_one_reported (h : host) (tempdir fn : str)
    (anns anns' : list annotation) (bad bad' : list (str * list str)) :
  skipped fn = false ->
  lint_one h true tempdir fn (active_name true) (active_opts true) (anns, bad)
  = Ret (anns', bad') ->
  exists news,
    anns' = anns ++ news
    /\ Forall2 (fun li a => make_annotation h fn li = Ret a)
         (reported h tempdir fn) news.
Proof.
  intros Hs. unfold lint_one, reported. rewrite Hs.
  destruct (prepare h tempdir fn _ _) as [[real_fn linter_cmd]|e]; cbn [bind];
    [|discriminate].
  destruct (run_silent h (linter_cmd ++ [real_fn])) as [[rc out]|e]; cbn [bind];
    [|discriminate].
  destruct (rc =? 0)%Z.
  - intros H. inversion H; subst. exists []. rewrite app_nil_r. split; constructor.
  - destruct (first_report h out) as [lis|e] eqn:Ef; cbn [bind]; [|discriminate].
    destruct (append_annotations h fn lis anns) as [anns1|e] eqn:E; cbn [bind];
      [|discriminate].
    intros H. inversion H; subst.
    apply append_annotations_spec in E as (news & -> & Hall).
    exists news. split; [reflexivity|].
    now rewrite (@first_report_reported h fn out lis news Ef Hall).
Qed.

Lemma reported_skipped (h : host) (tempdir fn : str) :
  skipped fn = true -> reported h tempdir fn = [].
Proof. unfold reported. now intros ->. Qed.

Lemma lint_files_reported (h : host) (tempdir : str) (files : list str) :
  forall anns bad anns' bad',
    lint_files h true tempdir (use_linters_of true) files (anns, bad)
    = Ret (anns', bad') ->
    exists news,
      anns' = anns ++ news
      /\ Forall2 (fun p a => make_annotation h (fst p) (snd p) = Ret a)
           (reported_findings h tempdir files) news.
Proof.
  unfold reported_findings.
  induction files as [|fn files IH]; intros anns bad anns' bad' H;
    cbn [lint_files flat_map] in *.
  - inversion H; subst. exists []. rewrite app_nil_r. split; constructor.
  - destruct (skipped fn) eqn:Hs.
    + rewrite (reported_skipped h tempdir fn Hs). cbn [map app]. now apply IH in H.
    + rewrite lint_linters_active in H.
      destruct (lint_one h true tempdir fn _ _ (anns, bad))
        as [[anns1 bad1]|e] eqn:E; [|discriminate].
      cbn [bind] in H.
      apply (@lint_one_reported h tempdir fn anns anns1 bad bad1 Hs) in E as (news1 & -> & H1).
      apply IH in H as (news2 & -> & H2).
      exists (news1 ++ news2). rewrite app_assoc. split; [reflexivity|].
      apply Forall2_app; [|exact H2].
      clear - H1. induction H1; cbn [map]; constructor; auto.
Qed.

(** The linter has nothing to report on a file it accepts. *)
Lemma reported_clean (h : host) (tempdir : str) (files : list str) :
  clean h true tempdir files -> reported_findings h tempdir files = [].
Proof.
  unfold clean, reported_findings.
  induction 1 as [|fn files Hfn _ IH]; cbn [flat_map]; [reflexivity|].
  rewrite IH, app_nil_r.
  destruct Hfn as [Hs|Hx]; [now rewrite reported_skipped|].
  unfold reported, linter_exit in *. destruct (skipped fn); [reflexivity|].
  destruct (prepare h tempdir fn _ _) as [[real_fn linter_cmd]|e]; cbn [bind] in *;
    [|reflexivity].
  destruct (run_silent h (linter_cmd ++ [real_fn])) as [[rc out]|e]; cbn [bind] in *;
    [|reflexivity].
  injection Hx as ->. reflexivity.
Qed.

(** C5: in checks-API mode the annotations of the report that [lint]
    posts are, in the order of the files, one for each finding the linter
    reported, and the annotation of a finding whose code starts with the
    character [c] has the level failure exactly when [c] is E or W, and
    the level warning otherwise.  A finding of the linter's format always
    gets its annotation; E501 and W503 give failure, C901 gives warning,
    also in a run of [lint_py] on a script with these three findings. *)
Theorem C5_annotation_level (h : host) (fn : str) :
  (forall li c rest a,
     EventCache.subscript li (lit "code") = Ret (EventCache.PyStr (c :: rest)) ->
     make_annotation h fn li = Ret a ->
     path a = fn
     /\ (annotation_level a = lit "failure" <-> c = "E"%char \/ c = "W"%char)
     /\ (annotation_level a = lit "warning" <-> ~ (c = "E"%char \/ c = "W"%char)))
  /\ (forall filename c rest text line column,
        exists a,
          make_annotation h fn (flake8_finding filename (c :: rest) text line column)
          = Ret a
          /\ (annotation_level a = lit "failure" <-> c = "E"%char \/ c = "W"%char)
          /\ (annotation_level a = lit "warning" <-> ~ (c = "E"%char \/ c = "W"%char)))
  /\ bind (make_annotation h fn finding_E501) (fun a => Ret (annotation_level a))
     = Ret (lit "failure")
  /\ bind (make_annotation h fn finding_W503) (fun a => Ret (annotation_level a))
     = Ret (lit "failure")
  /\ bind (make_annotation h fn finding_C901) (fun a => Ret (annotation_level a))
     = Ret (lit "warning")
  /\ (forall lis anns anns',
        append_annotations h fn lis anns = Ret anns' ->
        exists news,
          anns' = anns ++ news
          /\ Forall2 (fun li a => make_annotation h fn li = Ret a) lis news)
  /\ (forall ext w annotations bad,
        lint_loop h ext true w = Ret (annotations, bad) ->
        posted (new_calls w (snd (lint h ext true w)))
        = [report w (is_nil bad) annotations]
        /\ Forall2
             (fun p a =>
                path a = fst p
                /\ make_annotation h (fst p) (snd p) = Ret a
                /\ forall c rest,
                     EventCache.subscript (snd p) (lit "code")
                     = Ret (EventCache.PyStr (c :: rest)) ->
                     (annotation_level a = lit "failure"
                      <-> c = "E"%char \/ c = "W"%char)
                     /\ (annotation_level a = lit "warning"
                         <-> ~ (c = "E"%char \/ c = "W"%char)))
             (reported_findings h (tmp_path h (next_tmp w)) (globbed h ext))
             annotations)
  /\ map (fun r => (cr_conclusion r,
                    map (fun a => (path a, annotation_level a)) (cr_annotations r)))
       (posted (new_calls fresh_world (snd (lint_py pep8_host fresh_world))))
     = [(lit "failure",
         [(lit "pkg/a.py", lit "failure"); (lit "pkg/a.py", lit "failure");
          (lit "pkg/a.py", lit "warning")])].
Proof.
  split; [|split; [|split; [|split; [|split; [|split; [|split]]]]]];
    try reflexivity.
  - intros li c rest a Hc Ha. exact (@make_annotation_level h fn li c rest a Hc Ha).
  - intros filename c rest text line column. eexists.
    split; [now apply (@make_annotation_finding h fn filename (c :: rest) text
                         line column c rest)|].
    cbn [annotation_level]. apply level_pep8.
  - apply append_annotations_spec.
  - intros ext w annotations bad E.
    pose proof E as E1. unfold lint_loop in E1.
    apply lint_files_reported in E1 as (news & Hn & Hall). cbn [app] in Hn. subst news.
    split.
    + rewrite lint_unfold, E. cbv zeta. cbn [snd]. rewrite new_calls_post.
      cbn [posted flat_map app].
      destruct bad as [|b bad]; [|reflexivity]. cbn [is_nil].
      assert (Hc : clean h true (tmp_path h (next_tmp w)) (globbed h ext)).
      { unfold lint_loop in E. now apply lint_files_bad in E as [[_ Hc] _]. }
      rewrite (reported_clean Hc) in Hall. now inversion Hall.
    + clear - Hall. induction Hall as [|p a ps news Ha _ IH]; constructor; auto.
      pose proof (@make_annotation_inv h _ _ _ Ha) as (? & ? & ? & ? & ? & _ & _ & _ & _ & _ & Hp).
      split; [now rewrite Hp|]. split; [exact Ha|].
      intros c rest Hc. now destruct (@make_annotation_level h _ _ c rest a Hc Ha) as (_ & H1 & H2).
Qed.

(** ** Runs on sample inputs *)

(** The self-test accepts the last three of its eight titles. *)
Example test_pr_title_outcome :
  map snd (test_pr_title fresh_world)
  = [false; false; false; false; false; true; true; true].
Proof. reflexivity. Qed.

(** A good title posts the comment with the links to the tracker. *)
Example check_pr_title_comment :
  comments (snd (check_pr_title (Some (lit "JIRA-1, JA-2: Multiple issues")) fresh_world))
  = [lit "<!-- CWTag: jira -->" ++ [newline]
     ++ lit "Connected Jira: [JIRA-1](https://yabba.atlassian.net/browse/JIRA-1), "
     ++ lit "[JA-2](https://yabba.atlassian.net/browse/JA-2)"].
Proof. reflexivity. Qed.

(** A rejected script: [lint_py] returns 1 after one failed report with
    the two annotations; the script under the virtual environment is
    passed over. *)
Example lint_py_rejected :
  fst (lint_py flake8_host fresh_world) = Ret 1%Z
  /\ map (fun r => (cr_conclusion r, map annotation_level (cr_annotations r)))
       (posted (new_calls fresh_world (snd (lint_py flake8_host fresh_world))))
     = [(lit "failure", [lit "failure"; lit "warning"])]
  /\ tempdirs (snd (lint_py flake8_host fresh_world)) = [].
Proof. repeat split. Qed.

(** Without a matching file [lint_notebooks] returns 0 after the empty
    success report. *)
Example lint_notebooks_nothing :
  fst (lint_notebooks flake8_host fresh_world) = Ret 0%Z
  /\ posted (new_calls fresh_world (snd (lint_notebooks flake8_host fresh_world)))
     = [report fresh_world true []].
Proof. split; reflexivity. Qed.

(** * Further properties *)

(** ** Normalized tags *)

Lemma not_tag_char_alphabet (c : ascii) :
  not_tag_char c = negb (existsb (Ascii.eqb c) tag_alphabet).
Proof. destruct c as [[] [] [] [] [] [] [] []]; reflexivity. Qed.

Lemma tag_char_spec (c : ascii) : not_tag_char c = false <-> In c tag_alphabet.
Proof.
  rewrite not_tag_char_alphabet, negb_false_iff. apply existsb_eqb_In.
Qed.

Lemma normalize_alphabet (tag : str) :
  Forall (fun c => In c tag_alphabet) (normalize tag).
Proof.
  rewrite normalize_map. apply Forall_forall. intros c Hc.
  apply in_map_iff in Hc as (x & <- & _).
  apply tag_char_spec. destruct (not_tag_char x) eqn:E; [reflexivity | exact E].
Qed.

(** Normalization keeps the length of the tag, yields only letters,
    digits, underscores and dashes, and leaves exactly the tags made of
    these characters as they are. *)
Theorem normalize_shape (tag : str) :
  List.length (normalize tag) = List.length tag
  /\ Forall (fun c => In c tag_alphabet) (normalize tag)
  /\ (normalize tag = tag <-> Forall (fun c => In c tag_alphabet) tag).
Proof.
  split; [rewrite normalize_map; apply length_map|].
  split; [apply normalize_alphabet|]. rewrite normalize_map.
  induction tag as [|c tag IH]; cbn [map].
  - split; [constructor | reflexivity].
  - split.
    + intros H. injection H as Hc Ht. constructor; [|now apply IH].
      apply tag_char_spec. destruct (not_tag_char c) eqn:E; [|reflexivity].
      subst c. discriminate E.
    + intros H. inversion H as [|? ? Hc Ht]; subst.
      apply tag_char_spec in Hc. rewrite Hc. f_equal. now apply IH.
Qed.

(** ** Tags and their markers *)

Lemma startswith_app_both (p a b : str) :
  startswith (p ++ a) (p ++ b) = startswith a b.
Proof.
  induction p as [|c p IH]; [reflexivity|].
  cbn [app startswith]. now rewrite Ascii.eqb_refl, IH.
Qed.

Lemma space_not_tag_char : ~ In " "%char tag_alphabet.
Proof. intros H. apply tag_char_spec in H. discriminate H. Qed.

(** A text that starts with the marker of one normalized tag does not
    start with the marker of another. *)
Lemma marker_distinct (n1 : str) : forall n2 rest,
  Forall (fun c => In c tag_alphabet) n1 ->
  Forall (fun c => In c tag_alphabet) n2 ->
  startswith (html_tag_of n2 ++ rest) (html_tag_of n1) = true ->
  n1 = n2.
Proof.
  unfold html_tag_of. intros n2 rest H1 H2.
  rewrite <- !app_assoc, startswith_app_both. revert n2 H2.
  induction H1 as [|a n1 Ha _ IH]; intros n2 H2 H.
  - destruct n2 as [|b n2]; [reflexivity|]. exfalso.
    inversion H2 as [|? ? Hb _]; subst.
    cbn [app lit list_ascii_of_string startswith] in H.
    apply andb_true_iff in H as [H _]. apply Ascii.eqb_eq in H. subst b.
    now apply space_not_tag_char.
  - destruct n2 as [|b n2].
    + exfalso. cbn [app lit list_ascii_of_string startswith] in H.
      apply andb_true_iff in H as [H _]. apply Ascii.eqb_eq in H. subst a.
      now apply space_not_tag_char.
    + inversion H2 as [|? ? _ H2']; subst.
      cbn [app startswith] in H. apply andb_true_iff in H as [Hab H].
      apply Ascii.eqb_eq in Hab. subst b. f_equal. now apply IH.
Qed.

Lemma other_marker (t1 t2 c : str) :
  normalize t1 <> normalize t2 ->
  startswith c (marker t2) = true ->
  startswith c (marker t1) = false.
Proof.
  intros Hne H2. apply startswith_spec in H2 as [rest ->].
  destruct (startswith (marker t2 ++ rest) (marker t1)) eqn:E; [|reflexivity].
  exfalso. apply Hne. unfold marker in E.
  apply marker_distinct in E; [exact E | apply normalize_alphabet..].
Qed.

(** Two tags address the same comment exactly when they normalize alike:
    tags with the same normal form are handled the same, and posting under
    a tag with another normal form leaves the comments of this tag as they
    are. *)
Theorem tags_by_normal_form (t1 t2 body : str) (w : world) :
  (normalize t1 = normalize t2 ->
   post_tagged_comment t1 body w = post_tagged_comment t2 body w)
  /\ (normalize t1 <> normalize t2 ->
      tagged_comments t1 (post_tagged_comment t2 body w) = tagged_comments t1 w).
Proof.
  split.
  - intros E. unfold post_tagged_comment. now rewrite E.
  - intros Hne. unfold tagged_comments.
    assert (HF : startswith (full_body t2 body) (marker t1) = false)
      by (apply (other_marker t1 t2); [exact Hne | apply marker_tagged]).
    destruct (@first_tagged (marker t2) (comments w))
      as [Hnone | (pre & c & post & Hcs & Hpre & Hc)].
    + apply count_tagged_0 in Hnone. rewrite post_miss by exact Hnone.
      cbn [create_issue_comment log set_comments comments].
      rewrite filter_app. cbn [filter]. rewrite HF. apply app_nil_r.
    + apply count_tagged_0 in Hpre.
      rewrite (@post_hit t2 body w pre c post Hcs Hpre Hc), Hcs.
      assert (Hc1 : startswith c (marker t1) = false)
        by now apply (other_marker t1 t2).
      destruct (str_eqb c (full_body t2 body));
        cbn [fold_left log set_comments comments];
        rewrite !filter_app; cbn [filter]; now rewrite HF, Hc1.
Qed.

(** ** Statuses *)

Lemma find_context (context : str) (l : list status) :
  match find (fun st => str_eqb (st_context st) context) l with
  | Some st =>
      exists newer older,
        l = newer ++ st :: older
        /\ Forall (fun s => st_context s <> context) newer
        /\ st_context st = context
  | None => Forall (fun s => st_context s <> context) l
  end.
Proof.
  induction l as [|s l IH]; cbn [find]; [constructor|].
  destruct (str_eqb (st_context s) context) eqn:E.
  - apply str_eqb_eq in E. exists [], l. repeat split; [constructor | exact E].
  - apply str_eqb_neq in E.
    destruct (find _ l) as [st|].
    + destruct IH as (newer & older & -> & Hn & Hc).
      exists (s :: newer), older. repeat split; [now constructor | exact Hc].
    + now constructor.
Qed.

(** [get_status] returns the most recent status of the context: the one
    found has the context and every status listed before it has another;
    [None] means that no status of the context is listed.  A status just
    created is the one found for its context and hides older ones, and it
    is invisible to every other context. *)
Theorem get_status_most_recent (context : str) (w : world) :
  match get_status context w with
  | Some st =>
      exists newer older,
        statuses w = newer ++ st :: older
        /\ Forall (fun s => st_context s <> context) newer
        /\ st_context st = context
  | None => Forall (fun s => st_context s <> context) (statuses w)
  end
  /\ (forall state description,
        get_status context (create_status state description context w)
        = Some {| st_state := state; st_description := description;
                  st_context := context |})
  /\ (forall state description context',
        context' <> context ->
        get_status context (create_status state description context' w)
        = get_status context w).
Proof.
  split; [apply find_context|]. split.
  - intros state description. unfold get_status. cbn [create_status log set_statuses statuses find st_context].
    now rewrite str_eqb_refl.
  - intros state description context' Hne. unfold get_status.
    cbn [create_status log set_statuses statuses find st_context].
    apply str_eqb_neq in Hne. now rewrite Hne.
Qed.

(** ** The draft check keeps the status in step with the label *)

(** After [check_wip] the most recent Draft status says "failing" exactly
    when the pull request carries the draft label.  The run leaves the
    statuses of every other context, the comments, the event and the
    temporary directories alone, and the only call it can make is the
    creation of a status under the Draft context. *)
Theorem check_wip_in_step (w : world) :
  let w1 := snd (check_wip w) in
  was_failing w1 = Some (is_draft w)
  /\ is_draft w1 = is_draft w
  /\ (forall context, context <> WIP_CONTEXT -> get_status context w1 = get_status context w)
  /\ comments w1 = comments w
  /\ event w1 = event w
  /\ tempdirs w1 = tempdirs w
  /\ Forall (fun c => exists st, c = CreateStatus st /\ st_context st = WIP_CONTEXT)
       (new_calls w w1).
Proof.
  intros w1. subst w1.
  destruct (check_wip_world w) as [[Heq ->] | [_ (d & ->)]].
  - rewrite new_calls_refl. repeat split; [exact Heq | constructor].
  - rewrite was_failing_create_status.
    rewrite (@new_calls_app w _ [CreateStatus
               {| st_state := draft_state (is_draft w); st_description := d;
                  st_context := WIP_CONTEXT |}]) by reflexivity.
    repeat split.
    + intros context Hne. unfold get_status.
      cbn [create_status log set_statuses statuses find st_context].
      assert (E : str_eqb WIP_CONTEXT context = false)
        by (apply str_eqb_neq; congruence).
      now rewrite E.
    + constructor; [|constructor]. eexists. split; reflexivity.
Qed.

(** ** Titles *)

(** A title that is not well formed is rejected without any effect: the
    code is 1, no comment is posted and no call is made. *)
Theorem check_pr_title_rejected (title : str) (w : world) :
  ~ well_formed_title title ->
  check_pr_title (Some title) w = (1%Z, w).
Proof.
  intros Hn. unfold check_pr_title.
  destruct (Re.search TITLE_RE title) eqn:E; [|reflexivity].
  exfalso. apply Hn, search_TITLE_RE. congruence.
Qed.

(** A title with a one-letter key. *)
Lemma check_pr_title_rejected_witness :
  ~ well_formed_title (lit "J-12: fix")
  /\ check_pr_title (Some (lit "J-12: fix")) fresh_world = (1%Z, fresh_world).
Proof.
  assert (Hn : ~ well_formed_title (lit "J-12: fix")).
  { intros H. apply search_TITLE_RE in H. apply H. reflexivity. }
  split; [exact Hn | apply (check_pr_title_rejected fresh_world Hn)].
Defined.

Lemma post_with_cached_title (tag body t : str) (w : world) :
  post_tagged_comment tag body (with_cached_title t w)
  = with_cached_title t (post_tagged_comment tag body w).
Proof.
  unfold post_tagged_comment. cbn [with_cached_title comments].
  destruct (update_first _ _ 0 (comments w)) as [[cs' calls]|]; [|reflexivity].
  change (set_comments cs' (with_cached_title t w))
    with (with_cached_title t (set_comments cs' w)).
  generalize (set_comments cs' w).
  induction calls as [|c calls IH]; intros w0; [reflexivity|].
  cbn [fold_left].
  change (log c (with_cached_title t w0)) with (with_cached_title t (log c w0)).
  apply IH.
Qed.

(** Without a title argument the title the API reports is checked; the
    title cached in the event has no influence on the code returned nor on
    what is posted. *)
Theorem check_pr_title_api_title (w : world) (cached : str) :
  (fst (check_pr_title None w) = 0%Z <-> well_formed_title (api_title w))
  /\ (fst (check_pr_title None w) = 1%Z <-> ~ well_formed_title (api_title w))
  /\ check_pr_title None (with_cached_title cached w)
     = (fst (check_pr_title None w),
        with_cached_title cached (snd (check_pr_title None w))).
Proof.
  pose proof (search_TITLE_RE (api_title w)) as H.
  split; [|split].
  - change (check_pr_title None w) with (check_pr_title (Some (api_title w)) w).
    rewrite check_pr_title_code. destruct (Re.search TITLE_RE (api_title w)).
    + split; [intros _; apply H; discriminate | reflexivity].
    + split; [discriminate | intros Hw; apply H in Hw; congruence].
  - change (check_pr_title None w) with (check_pr_title (Some (api_title w)) w).
    rewrite check_pr_title_code. destruct (Re.search TITLE_RE (api_title w)).
    + split; [discriminate | intros Hn; exfalso; apply Hn, H; discriminate].
    + split; [intros _ Hw; apply H in Hw; congruence | reflexivity].
  - unfold check_pr_title, get_pr_title. cbn [with_cached_title api_title].
    destruct (Re.search TITLE_RE (api_title w)); [|reflexivity].
    cbn [fst snd]. f_equal. apply post_with_cached_title.
Qed.

(** ** The comment of an accepted title *)

Section Links.
Import Re ReFacts.

(** A greedy star over a character class takes the whole run of the class
    when the continuation accepts what follows the run. *)
Lemma star_cls_greedy (A : Type) (f : ascii -> bool)
    (k : nat -> str -> caps -> option A) (rest : str) (cs : caps) (x : A)
    (run : str) : forall n pos,
  Forall (fun c => f c = true) run ->
  match rest with [] => True | c :: _ => f c = false end ->
  List.length (run ++ rest) <= n ->
  k (pos + List.length run) rest cs = Some x ->
  star_loop (bt (A:=A) (Cls f)) k n pos (run ++ rest) cs = Some x.
Proof.
  induction run as [|c run IH]; intros n pos Hrun Hrest Hn Hk.
  - cbn [app List.length] in *. rewrite Nat.add_0_r in Hk.
    destruct n as [|n]; [exact Hk|]. cbn [star_loop bt].
    destruct rest as [|c rest]; [exact Hk|]. now rewrite Hrest.
  - inversion Hrun as [|? ? Hc Hrun']; subst.
    destruct n as [|n]; [cbn [app List.length] in Hn; lia|].
    cbn [app star_loop bt]. rewrite Hc.
    replace (List.length (run ++ rest) <? List.length (c :: run ++ rest)) with true
      by (symmetry; apply Nat.ltb_lt; cbn [List.length]; lia).
    rewrite IH; [reflexivity | exact Hrun' | exact Hrest | |].
    + cbn [app List.length] in Hn. lia.
    + cbn [List.length] in Hk. now rewrite Nat.add_succ_comm.
Qed.

(** On a ticket reference that is not followed by a digit the reference
    pattern takes the whole reference. *)
Lemma bt_KEY_RE_whole (A : Type) (k : nat -> str -> caps -> option A)
    (r rest : str) (pos : nat) (cs : caps) (x : A) :
  ticket_reference r ->
  no_digit_start rest ->
  k (pos + List.length r) rest cs = Some x ->
  bt KEY_RE pos (r ++ rest) cs k = Some x.
Proof.
  intros (k1 & n & -> & [Hlen Hup] & d & ds & -> & Hd & Hds) Hrest Hk.
  destruct k1 as [|u1 [|u2 us]]; cbn [List.length] in Hlen; try lia.
  inversion Hup as [|? ? Hu1 Hup1]; subst.
  inversion Hup1 as [|? ? Hu2 Hus]; subst.
  apply upper_spec in Hu1, Hu2. apply Forall_upper in Hus.
  apply digit19_spec in Hd. apply Forall_digit in Hds.
  replace (((u1 :: u2 :: us) ++ lit "-" ++ d :: ds) ++ rest)
    with (u1 :: u2 :: us ++ "-"%char :: d :: ds ++ rest)
    by (cbn [app lit list_ascii_of_string]; now rewrite <- app_assoc).
  unfold KEY_RE. cbn [bt AtLeast]. rewrite Hu1, Hu2.
  apply star_cls_greedy; [exact Hus | reflexivity | lia |].
  unfold Chr. cbn [bt]. rewrite Ascii.eqb_refl, Hd.
  apply star_cls_greedy; [exact Hds | exact Hrest | lia |].
  rewrite <- Hk. f_equal.
  rewrite !length_app. cbn [List.length lit list_ascii_of_string]. lia.
Qed.

(** No reference starts at a comma or at a space. *)
Lemma match_at_separator (c : ascii) (s : str) (pos : nat) :
  upper c = false -> match_at KEY_RE pos (c :: s) = None.
Proof. intros H. unfold match_at, KEY_RE. cbn [bt AtLeast]. now rewrite H. Qed.

Lemma ticket_reference_length (r : str) : ticket_reference r -> 4 <= List.length r.
Proof.
  intros (k1 & n & -> & [Hlen _] & d & ds & -> & _).
  rewrite !length_app. cbn [List.length lit list_ascii_of_string]. lia.
Qed.

Lemma join_cons_cons (sep r r' : str) (refs : list str) :
  join sep (r :: r' :: refs) = r ++ sep ++ join sep (r' :: refs).
Proof. reflexivity. Qed.

(** One step of the scan at the start of a reference. *)
Lemma scan_reference (r tail : str) (fuel pos : nat) :
  ticket_reference r ->
  no_digit_start tail ->
  scan (S fuel) KEY_RE pos (r ++ tail)
  = inr r :: scan fuel KEY_RE (pos + List.length r) tail.
Proof.
  intros Hr Htail. pose proof (ticket_reference_length Hr) as Hlen.
  assert (Hm : match_at KEY_RE pos (r ++ tail)
               = Some {| m_start := pos; m_end := pos + List.length r;
                         m_caps := [] |})
    by (unfold match_at; now apply bt_KEY_RE_whole).
  destruct r as [|c0 r0]; [cbn [List.length] in Hlen; lia|].
  cbn [app] in Hm. cbn [app scan]. rewrite Hm. cbn [m_end].
  replace (pos + List.length (c0 :: r0) - pos) with (S (List.length r0))
    by (cbn [List.length]; lia).
  cbn [firstn skipn].
  rewrite firstn_app, firstn_all, Nat.sub_diag, skipn_app, skipn_all, Nat.sub_diag.
  cbn [firstn skipn app]. now rewrite app_nil_r.
Qed.

Lemma join_starts (sep r : str) (refs : list str) :
  exists t, join sep (r :: refs) = r ++ t.
Proof.
  destruct refs as [|r' refs]; [exists []; cbn [join]; now rewrite app_nil_r|].
  eexists. apply join_cons_cons.
Qed.

(** [findall] of the reference pattern takes a ticket list apart again. *)
Lemma findall_join (refs : list str) : forall fuel pos,
  Forall ticket_reference refs ->
  List.length (join (lit ", ") refs) <= fuel ->
  flat_map (fun x => match x with inl _ => [] | inr w => [w] end)
    (scan fuel KEY_RE pos (join (lit ", ") refs))
  = refs.
Proof.
  induction refs as [|r refs IH]; intros fuel pos Hrefs Hfuel.
  - now destruct fuel.
  - inversion Hrefs as [|? ? Hr Hrefs']; subst.
    pose proof (ticket_reference_length Hr) as Hlen.
    destruct refs as [|r' refs].
    + cbn [join] in *. destruct fuel as [|fuel]; [lia|].
      rewrite <- (app_nil_r r) at 1. rewrite scan_reference by (exact Hr || exact I).
      cbn [flat_map app]. now destruct fuel.
    + rewrite join_cons_cons in *. rewrite !length_app in Hfuel.
      cbn [List.length lit list_ascii_of_string] in Hfuel.
      destruct fuel as [|[|[|fuel]]]; try lia.
      rewrite scan_reference by (exact Hr || reflexivity).
      cbn [lit list_ascii_of_string app scan].
      rewrite match_at_separator by reflexivity.
      destruct (join_starts (lit ", ") r' refs) as [t Ej].
      cbn [lit list_ascii_of_string] in Ej.
      inversion Hrefs' as [|? ? Hr' _]; subst.
      pose proof (ticket_reference_length Hr') as Hlen'.
      destruct r' as [|c1 r1]; [cbn [List.length] in Hlen'; lia|].
      rewrite Ej. cbn [app scan].
      rewrite match_at_separator by reflexivity.
      cbn [flat_map app]. f_equal.
      change (c1 :: r1 ++ t) with ((c1 :: r1) ++ t). rewrite <- Ej.
      apply IH; [exact Hrefs' | cbn [lit list_ascii_of_string]; lia].
Qed.

Lemma search_bol_eq (r : regex) (s : str) :
  search (Cat Bol r) s = match_at (Cat Bol r) 0 s.
Proof.
  unfold search. destruct s as [|c s]; cbn [search_from];
    destruct (match_at (Cat Bol r) 0 _); auto using search_from_bol.
Qed.

(** A literal takes its own text and leaves the captures alone. *)
Lemma bt_Lit (A : Type) (l : str) :
  forall pos s cs (k : nat -> str -> caps -> option A) x,
    bt (Lit l) pos s cs k = Some x ->
    exists s', s = l ++ s' /\ k (pos + List.length l) s' cs = Some x.
Proof.
  induction l as [|c l IH]; intros pos s cs k x H; cbn [Lit bt] in H.
  - exists s. now rewrite Nat.add_0_r.
  - unfold Chr in H. cbn [bt] in H. destruct s as [|d s]; [discriminate|].
    destruct (Ascii.eqb c d) eqn:E; [|discriminate].
    apply Ascii.eqb_eq in E. subst d.
    apply IH in H as (s' & -> & H). exists s'. split; [reflexivity|].
    cbn [List.length]. now rewrite <- Nat.add_succ_comm.
Qed.

(** Group 1 of a match of the title pattern is a ticket list, and the
    title goes on with a colon and a space after it. *)
Lemma title_group1 (title : str) (m : rmatch) :
  search TITLE_RE title = Some m ->
  exists w1 s2,
    title = w1 ++ lit ": " ++ s2 /\ ticket_list w1 /\ group title m 1 = w1.
Proof.
  unfold TITLE_RE. rewrite search_bol_eq. intros H.
  change (match_at (Cat Bol (Cat KEYS_RE (Lit (lit ": ")))) 0 title)
    with (bt (Cat (Star (Group 2 (Cat KEY_RE (Lit (lit ", "))))) (Group 3 KEY_RE))
            0 title []
            (fun p' s' cs' =>
               bt (Lit (lit ": ")) p' s' ((1, (0, p')) :: cs')
                 (fun p'' _ cs'' =>
                    Some {| m_start := 0; m_end := p''; m_caps := cs'' |}))) in H.
  apply bt_sound in H as (w1 & s1 & cs1 & -> & Hw1 & H).
  apply bt_Lit in H as (s2 & -> & H). injection H as <-.
  exists w1, s2. split; [reflexivity|]. split; [now apply (lang_KEYS_RE 0)|].
  unfold group, slice. cbn [m_caps lookup_cap Nat.eqb Nat.add].
  rewrite Nat.sub_0_r. cbn [skipn].
  now rewrite firstn_app, firstn_all, Nat.sub_diag, app_nil_r.
Qed.

Lemma colon_split_unique (a : str) : forall b x y,
  ~ In ":"%char a -> ~ In ":"%char b ->
  a ++ ":"%char :: x = b ++ ":"%char :: y -> a = b.
Proof.
  induction a as [|c a IH]; intros b x y Ha Hb H.
  - destruct b as [|d b]; [reflexivity|]. cbn [app] in H. injection H as <- _.
    exfalso. apply Hb. now left.
  - destruct b as [|d b]; cbn [app] in H.
    + injection H as -> _. exfalso. apply Ha. now left.
    + injection H as <- H. f_equal. apply (IH b x y); [| |exact H].
      * intros G. apply Ha. now right.
      * intros G. apply Hb. now right.
Qed.

Lemma ticket_reference_no_colon (r : str) :
  ticket_reference r -> ~ In ":"%char r.
Proof.
  intros (k1 & n & -> & [_ Hup] & d & ds & -> & Hd & Hds) H.
  apply in_app_or in H as [H|H].
  - rewrite Forall_forall in Hup. apply Hup, upper_spec in H. discriminate H.
  - cbn [lit list_ascii_of_string app] in H. destruct H as [H|[H|H]].
    + discriminate H.
    + subst d. apply digit19_spec in Hd. discriminate Hd.
    + rewrite Forall_forall in Hds. apply Hds, digit09_spec in H. discriminate H.
Qed.

Lemma join_no_colon (refs : list str) :
  Forall ticket_reference refs -> ~ In ":"%char (join (lit ", ") refs).
Proof.
  induction 1 as [|r refs Hr _ IH]; [intros []|].
  destruct refs as [|r' refs].
  - cbn [join]. now apply ticket_reference_no_colon.
  - rewrite join_cons_cons. intros H. apply in_app_or in H as [H|H].
    + now apply (ticket_reference_no_colon Hr).
    + apply in_app_or in H as [H|H]; [|now apply IH].
      cbn [lit list_ascii_of_string] in H. destruct H as [H|[H|[]]]; discriminate H.
Qed.

End Links.

Lemma findall_ticket_list (refs : list str) :
  Forall ticket_reference refs ->
  Re.findall KEY_RE (join (lit ", ") refs) = refs.
Proof. intros H. unfold Re.findall. now apply findall_join. Qed.

(** For a title that starts with the ticket references [refs], separated
    by a comma and a space and followed by a colon and a space,
    [check_pr_title] returns 0 and posts, under the tag jira, the comment
    that links exactly these references, in their order. *)
Theorem check_pr_title_links (refs : list str) (rest : str) (w : world) :
  refs <> [] ->
  Forall ticket_reference refs ->
  check_pr_title (Some (join (lit ", ") refs ++ lit ": " ++ rest)) w
  = (0%Z, post_tagged_comment (lit "jira") (jira_message refs) w).
Proof.
  intros Hne Hrefs. unfold check_pr_title.
  destruct (Re.search TITLE_RE (join (lit ", ") refs ++ lit ": " ++ rest))
    as [m|] eqn:E.
  - destruct (title_group1 _ E) as (w1 & s2 & Ht & (refs1 & _ & Hrefs1 & ->) & ->).
    symmetry in Ht.
    apply (@colon_split_unique _ _ (" "%char :: s2) (" "%char :: rest)) in Ht;
      try now apply join_no_colon.
    rewrite Ht, findall_ticket_list by exact Hrefs. reflexivity.
  - exfalso. assert (H : Re.search TITLE_RE
                 (join (lit ", ") refs ++ lit ": " ++ rest) <> None);
      [|congruence].
    apply search_TITLE_RE. exists (join (lit ", ") refs), rest.
    split; [|reflexivity]. now exists refs.
Qed.

Lemma sample_references :
  Forall ticket_reference [lit "JIRA-1"; lit "JA-2"].
Proof.
  constructor; [|constructor; [|constructor]].
  - exists (lit "JIRA"), (lit "1"). split; [reflexivity|]. split.
    + split; [cbn; lia | repeat constructor; apply upper_spec; reflexivity].
    + exists "1"%char, []. repeat split; [apply digit19_spec; reflexivity | constructor].
  - exists (lit "JA"), (lit "2"). split; [reflexivity|]. split.
    + split; [cbn; lia | repeat constructor; apply upper_spec; reflexivity].
    + exists "2"%char, []. repeat split; [apply digit19_spec; reflexivity | constructor].
Qed.

(** The title with two references of the self-test. *)
Lemma check_pr_title_links_witness :
  [lit "JIRA-1"; lit "JA-2"] <> []
  /\ Forall ticket_reference [lit "JIRA-1"; lit "JA-2"]
  /\ check_pr_title
       (Some (join (lit ", ") [lit "JIRA-1"; lit "JA-2"] ++ lit ": "
              ++ lit "Multiple issues")) fresh_world
     = (0%Z, post_tagged_comment (lit "jira")
               (jira_message [lit "JIRA-1"; lit "JA-2"]) fresh_world).
Proof.
  split; [discriminate|]. split; [exact sample_references|].
  apply check_pr_title_links; [discriminate | exact sample_references].
Defined.

(** ** Files the lint step passes over *)

Lemma root_dir_component (d rest : str) :
  ~ In "/"%char d -> root_dir (d ++ "/"%char :: rest) = d /\ root_dir d = d.
Proof.
  induction d as [|c d IH]; intros Hd; [split; reflexivity|].
  cbn [app root_dir].
  destruct (Ascii.eqb c "/") eqn:E.
  - apply Ascii.eqb_eq in E. exfalso. apply Hd. now left.
  - destruct IH as [IH1 IH2]; [intros H; apply Hd; now right|].
    now rewrite IH1, IH2.
Qed.

(** Whether a file is passed over depends on its first path component
    alone: the names dist, build and .ipynb_checkpoints and every name that
    starts with venv are excluded at the top level only.  A file that is
    passed over never reaches a linter: the loop gives the same result
    without it. *)
Theorem skipped_by_first_component (h : host) (checks_api : bool)
    (tempdir : str) (use_linters files : list str) (st : acc) :
  (forall d rest, ~ In "/"%char d ->
     skipped (d ++ "/"%char :: rest) = excluded_root d
     /\ skipped d = excluded_root d)
  /\ lint_files h checks_api tempdir use_linters files st
     = lint_files h checks_api tempdir use_linters
         (filter (fun fn => negb (skipped fn)) files) st.
Proof.
  split.
  - intros d rest Hd. unfold skipped, excluded_root.
    destruct (@root_dir_component d rest Hd) as [-> ->]. split; reflexivity.
  - revert st. induction files as [|fn files IH]; intros st; [reflexivity|].
    cbn [lint_files filter]. destruct (skipped fn) eqn:E; cbn [negb].
    + apply IH.
    + cbn [lint_files]. rewrite E.
      destruct (lint_linters h checks_api tempdir use_linters fn LINTERS st);
        cbn [bind]; [apply IH | reflexivity].
Qed.

(** ** The files recorded as bad *)

Lemma dict_set_keys (V : Type) (d : list (str * V)) (key : str) (v : V) (x : str) :
  In x (map fst (dict_set d key v)) <-> x = key \/ In x (map fst d).
Proof.
  induction d as [|[k y] d IH]; cbn [dict_set map fst In].
  - split; [intros [<-|[]]; now left | intros [->|[]]; now left].
  - destruct (str_eqb k key) eqn:E; cbn [map fst In].
    + apply str_eqb_eq in E. subst k. split; [intros [<-|H]; auto | intros [->|[<-|H]]; auto].
    + rewrite IH. split; [intros [<-|[->|H]]; auto | intros [->|[<-|H]]; auto].
Qed.

Lemma dict_set_NoDup (V : Type) (d : list (str * V)) (key : str) (v : V) :
  NoDup (map fst d) -> NoDup (map fst (dict_set d key v)).
Proof.
  induction d as [|[k y] d IH]; intros H; cbn [dict_set map fst].
  - constructor; [intros [] | constructor].
  - inversion H as [|? ? Hk Hd]; subst.
    destruct (str_eqb k key) eqn:E; cbn [map fst]; [exact H|].
    constructor; [|now apply IH].
    intros G. apply dict_set_keys in G as [->|G]; [|contradiction].
    now rewrite str_eqb_refl in E.
Qed.

(** One linter run with a non-zero exit code records the file. *)
Lemma lint_one_bad (h : host) (checks_api : bool) (tempdir fn : str)
    (anns anns' : list annotation) (bad bad' : list (str * list str)) :
  lint_one h checks_api tempdir fn (active_name checks_api) (active_opts checks_api)
    (anns, bad) = Ret (anns', bad') ->
  linter_exit h checks_api tempdir fn <> Ret 0%Z ->
  bad' = dict_set bad fn (dict_get bad fn [] ++ [active_name checks_api]).
Proof.
  unfold lint_one, linter_exit.
  destruct (prepare h tempdir fn _ _) as [[real_fn linter_cmd]|e]; cbn [bind];
    [|discriminate].
  destruct (run_silent h (linter_cmd ++ [real_fn])) as [[rc out]|e]; cbn [bind];
    [|discriminate].
  destruct (Z.eqb_spec rc 0) as [->|Hrc]; [intros _ H; now elim H|].
  intros H _.
  destruct (if checks_api then _ else _) as [a|e]; cbn [bind] in H; [|discriminate].
  now inversion H.
Qed.

Lemma lint_files_bad_keys (h : host) (checks_api : bool) (tempdir : str)
    (files : list str) : forall anns bad anns' bad',
  lint_files h checks_api tempdir (use_linters_of checks_api) files (anns, bad)
  = Ret (anns', bad') ->
  (NoDup (bad_files bad) -> NoDup (bad_files bad'))
  /\ forall fn,
       In fn (bad_files bad') <->
       In fn (bad_files bad)
       \/ (In fn files /\ skipped fn = false
           /\ linter_exit h checks_api tempdir fn <> Ret 0%Z).
Proof.
  unfold bad_files.
  induction files as [|f files IH]; intros anns bad anns' bad' H;
    cbn [lint_files] in H.
  - inversion H; subst. split; [auto|]. intros fn. cbn [In]. tauto.
  - destruct (skipped f) eqn:Hs.
    + apply IH in H as [Hnd Hin]. split; [exact Hnd|]. intros fn.
      rewrite Hin. cbn [In]. split; [tauto|].
      intros [G|([<-|G] & G1 & G2)]; [tauto | congruence | tauto].
    + rewrite lint_linters_active in H.
      destruct (lint_one h checks_api tempdir f _ _ (anns, bad))
        as [[anns1 bad1]|e] eqn:E; [|discriminate].
      cbn [bind] in H. apply IH in H as [Hnd Hin].
      destruct (@lint_one_Ret _ _ _ _ _ _ _ _ E) as [(Hx & _ & ->) | (Hx & _)].
      * split; [exact Hnd|]. intros fn. rewrite Hin. cbn [In]. split; [tauto|].
        intros [G|([<-|G] & G1 & G2)]; [tauto | contradiction | tauto].
      * pose proof (@lint_one_bad _ _ _ _ _ _ _ _ E Hx) as Hb. subst bad1.
        split; [intros G; now apply Hnd, dict_set_NoDup|].
        intros fn. rewrite Hin, dict_set_keys. cbn [In]. split.
        -- intros [[->|G]|G]; [right; repeat split; auto | tauto | tauto].
        -- intros [G|([<-|G] & G1 & G2)]; tauto.
Qed.

(** When the file loop of [lint] completes, the files recorded as bad are
    exactly the files of the globs that are not passed over and whose
    linter run ended with a non-zero exit code; no file is recorded twice. *)
Theorem bad_files_exact (h : host) (ext : list str) (checks_api : bool) (w : world)
    (annotations : list annotation) (bad : list (str * list str)) :
  lint_loop h ext checks_api w = Ret (annotations, bad) ->
  NoDup (bad_files bad)
  /\ forall fn,
       In fn (bad_files bad) <->
       In fn (globbed h ext) /\ skipped fn = false
       /\ linter_exit h checks_api (tmp_path h (next_tmp w)) fn <> Ret 0%Z.
Proof.
  unfold lint_loop. intros H. apply lint_files_bad_keys in H as [Hnd Hin].
  split; [apply Hnd; constructor|]. intros fn. rewrite Hin. cbn [bad_files map In].
  tauto.
Qed.

(** The run of [lint_py] on the sample worker. *)
Lemma bad_files_exact_witness :
  exists annotations bad,
    lint_loop flake8_host [lit "*.py"] true fresh_world = Ret (annotations, bad)
    /\ NoDup (bad_files bad)
    /\ forall fn,
         In fn (bad_files bad) <->
         In fn (globbed flake8_host [lit "*.py"]) /\ skipped fn = false
         /\ linter_exit flake8_host true
              (tmp_path flake8_host (next_tmp fresh_world)) fn <> Ret 0%Z.
Proof.
  do 2 eexists. split; [reflexivity|].
  eapply (@bad_files_exact flake8_host [lit "*.py"] true fresh_world). reflexivity.
Defined.

(** ** The annotations collected *)

Lemma make_annotation_shape (h : host) (fn : str) (li : EventCache.pyval)
    (a : annotation) :
  make_annotation h fn li = Ret a ->
  path a = fn
  /\ start_line a = end_line a
  /\ start_column a = end_column a
  /\ (annotation_level a = lit "failure" \/ annotation_level a = lit "warning").
Proof.
  intros Ha.
  apply make_annotation_inv in Ha
    as (line & column & code & text & lv & _ & _ & _ & _ & Hlv & ->).
  cbn [path start_line end_line start_column end_column annotation_level].
  split; [reflexivity|]. split; [reflexivity|]. split; [reflexivity|].
  unfold level in Hlv.
  destruct (EventCache.subscript li (lit "code")) as [x|e]; cbn [bind] in Hlv;
    [|discriminate].
  destruct (item0 x) as [y|e]; cbn [bind] in Hlv; [|discriminate].
  destruct (in_str y (lit "EW")) as [[|]|e]; cbn [bind] in Hlv; [| |discriminate];
    injection Hlv as <-; [left | right]; reflexivity.
Qed.

Lemma lint_one_annotations (h : host) (checks_api : bool) (tempdir fn : str)
    (anns anns' : list annotation) (bad bad' : list (str * list str)) :
  lint_one h checks_api tempdir fn (active_name checks_api) (active_opts checks_api)
    (anns, bad) = Ret (anns', bad') ->
  exists news,
    anns' = anns ++ news
    /\ (checks_api = false -> news = [])
    /\ (news <> [] -> In fn (bad_files bad'))
    /\ Forall (fun a =>
                 path a = fn
                 /\ start_line a = end_line a
                 /\ start_column a = end_column a
                 /\ (annotation_level a = lit "failure"
                     \/ annotation_level a = lit "warning")) news.
Proof.
  unfold lint_one.
  destruct (prepare h tempdir fn _ _) as [[real_fn linter_cmd]|e]; cbn [bind];
    [|discriminate].
  destruct (run_silent h (linter_cmd ++ [real_fn])) as [[rc out]|e]; cbn [bind];
    [|discriminate].
  destruct (rc =? 0)%Z.
  - intros H. inversion H; subst. exists []. rewrite app_nil_r.
    repeat split; [congruence | constructor].
  - destruct checks_api.
    + destruct (first_report h out) as [lis|e]; cbn [bind]; [|discriminate].
      destruct (append_annotations h fn lis anns) as [anns1|e] eqn:E; cbn [bind];
        [|discriminate].
      intros H. inversion H; subst.
      apply append_annotations_spec in E as (news & -> & Hall).
      exists news. repeat split; [discriminate | |].
      * intros _. apply dict_set_keys. now left.
      * clear - Hall. induction Hall as [|li a lis news Ha _ IH]; constructor; auto.
        now apply (@make_annotation_shape h fn li).
    + cbn [bind]. intros H. inversion H; subst. exists []. rewrite app_nil_r.
      repeat split; [congruence | constructor].
Qed.

Lemma lint_files_annotations (h : host) (checks_api : bool) (tempdir : str)
    (files : list str) : forall anns bad anns' bad',
  lint_files h checks_api tempdir (use_linters_of checks_api) files (anns, bad)
  = Ret (anns', bad') ->
  Forall (annotation_ok bad) anns ->
  Forall (annotation_ok bad') anns'
  /\ (checks_api = false -> anns = [] -> anns' = []).
Proof.
  induction files as [|f files IH]; intros anns bad anns' bad' H Hinv;
    cbn [lint_files] in H.
  - inversion H; subst. auto.
  - destruct (skipped f); [now apply IH in H|].
    rewrite lint_linters_active in H.
    destruct (lint_one h checks_api tempdir f _ _ (anns, bad))
      as [[anns1 bad1]|e] eqn:E; [|discriminate].
    cbn [bind] in H.
    pose proof (@lint_one_annotations _ _ _ _ _ _ _ _ E) as (news & -> & Hplain & Hkey & Hnews).
    assert (Hmono : forall fn, In fn (bad_files bad) -> In fn (bad_files bad1)).
    { intros fn Hfn.
      destruct (@lint_one_Ret _ _ _ _ _ _ _ _ E) as [(_ & _ & ->) | (Hx & _)]; [exact Hfn|].
      rewrite (@lint_one_bad _ _ _ _ _ _ _ _ E Hx). apply dict_set_keys. now right. }
    apply IH in H.
    + destruct H as [H1 H2]. split; [exact H1|].
      intros Hapi ->. apply H2; [exact Hapi|]. now rewrite (Hplain Hapi).
    + apply Forall_app. split.
      * eapply Forall_impl; [|exact Hinv].
        intros a (Ha1 & Ha2 & Ha3 & Ha4). repeat split; auto.
      * destruct news as [|n0 news0]; [constructor|].
        assert (Hf : In f (bad_files bad1)) by (apply Hkey; discriminate).
        eapply Forall_impl; [|exact Hnews].
        intros a (Hp & Ha1 & Ha2 & Ha3). repeat split; auto. now rewrite Hp.
Qed.

(** When the file loop of [lint] completes, every annotation collected
    points at a single position (start and end line, start and end column
    agree), has the level failure or warning and belongs to a file recorded
    as bad; without the checks API no annotation is collected. *)
Theorem annotations_well_formed (h : host) (ext : list str) (checks_api : bool)
    (w : world) (annotations : list annotation) (bad : list (str * list str)) :
  lint_loop h ext checks_api w = Ret (annotations, bad) ->
  Forall (fun a =>
            start_line a = end_line a
            /\ start_column a = end_column a
            /\ (annotation_level a = lit "failure" \/ annotation_level a = lit "warning")
            /\ In (path a) (bad_files bad)) annotations
  /\ (checks_api = false -> annotations = []).
Proof.
  unfold lint_loop. intros H.
  apply lint_files_annotations in H; [|constructor].
  destruct H as [H1 H2]. split; [exact H1 | auto].
Qed.

(** The run of [lint_py] on the sample worker. *)
Lemma annotations_well_formed_witness :
  exists annotations bad,
    lint_loop flake8_host [lit "*.py"] true fresh_world = Ret (annotations, bad)
    /\ List.length annotations = 2
    /\ Forall (fun a =>
                 start_line a = end_line a
                 /\ start_column a = end_column a
                 /\ (annotation_level a = lit "failure"
                     \/ annotation_level a = lit "warning")
                 /\ In (path a) (bad_files bad)) annotations
    /\ (true = false -> annotations = []).
Proof.
  do 2 eexists. split; [reflexivity|]. split; [reflexivity|].
  eapply (@annotations_well_formed flake8_host [lit "*.py"] true fresh_world).
  reflexivity.
Defined.

(** ** Runs of [lint] that return, and runs that do not *)

(** When GitHub answers the report with an error status, [lint] raises the
    HTTP error instead of returning its code; by then the report has been
    posted once and the temporary directory removed. *)
Theorem lint_report_rejected (h : host) (ext : list str) (w : world)
    (annotations : list annotation) (bad : list (str * list str)) :
  lint_loop h ext true w = Ret (annotations, bad) ->
  accepted h w (report w (is_nil bad) (if is_nil bad then [] else annotations))
  = false ->
  exists w',
    lint h ext true w
    = (Raise (HTTPError
                (http_post h (check_url w)
                   (report w (is_nil bad) (if is_nil bad then [] else annotations)))),
       w')
    /\ posted (new_calls w w')
       = [report w (is_nil bad) (if is_nil bad then [] else annotations)]
    /\ removals (next_tmp w) (new_calls w w') = 1
    /\ ~ In (next_tmp w) (tempdirs w').
Proof.
  intros E Hacc. rewrite lint_unfold, E. cbv zeta. rewrite Hacc.
  eexists. split; [reflexivity|]. rewrite new_calls_post.
  split; [reflexivity|]. split.
  - unfold removals. simpl. now rewrite Nat.eqb_refl.
  - apply (removed_after_rmtree (next_tmp w) (snd (mkdtemp w))).
Qed.

(** The run of [lint_py] on a worker whose report GitHub rejects. *)
Lemma lint_report_rejected_witness :
  exists annotations bad w',
    lint_loop rejecting_host [lit "*.py"] true fresh_world = Ret (annotations, bad)
    /\ accepted rejecting_host fresh_world
         (report fresh_world (is_nil bad) (if is_nil bad then [] else annotations))
       = false
    /\ lint rejecting_host [lit "*.py"] true fresh_world = (Raise (HTTPError 422), w')
    /\ removals (next_tmp fresh_world) (new_calls fresh_world w') = 1.
Proof.
  destruct (@lint_report_rejected rejecting_host [lit "*.py"] fresh_world
              _ _ eq_refl eq_refl) as (w' & H1 & _ & H3 & _).
  do 3 eexists. split; [reflexivity|]. split; [reflexivity|].
  split; [exact H1 | exact H3].
Defined.



(** ** The path of a converted notebook *)

Lemma endswith_app (a p : str) : endswith (a ++ p) p = true.
Proof. unfold endswith. rewrite rev_app_distr. apply startswith_app. Qed.

Lemma drop6_ipynb (x : str) : drop6 (x ++ lit ".ipynb") = x.
Proof.
  unfold drop6. rewrite length_app.
  replace (List.length x + List.length (lit ".ipynb") - 6) with (List.length x)
    by (cbn [lit list_ascii_of_string List.length]; lia).
  now rewrite firstn_app, firstn_all, Nat.sub_diag, app_nil_r.
Qed.

(** A notebook with a relative path whose conversion succeeds (the
    converter exits with 0 and leaves the script beside the notebook) is
    linted as a script inside the temporary directory: the path keeps its
    directories and its name and gets the extension .py instead of .ipynb,
    the command is the one of the notebook profile, and the converted
    script is expected beside the notebook under the same name. *)
Theorem notebook_script_path (h : host) (tempdir base name out : str)
    (opts : list (str * list str)) :
  tempdir <> [] ->
  endswith tempdir (lit "/") = false ->
  startswith (base ++ lit ".ipynb") (lit "/") = false ->
  run_silent h [lit "jupyter"; lit "nbconvert"; base ++ lit ".ipynb";
                lit "--to"; lit "script"] = Ret (0%Z, out) ->
  isfile h (base ++ lit ".py") = true ->
  conversion_fails h (base ++ lit ".ipynb") = false
  /\ prepare h tempdir (base ++ lit ".ipynb") name opts
     = Ret (tempdir ++ lit "/" ++ base ++ lit ".py",
            dict_get opts (lit "ipynb") [name])
  /\ drop6 (base ++ lit ".ipynb") = base.
Proof.
  intros Hne Hslash Hrel Hrun Hfile.
  split; [|split; [|apply drop6_ipynb]].
  - unfold conversion_fails. unfold str in *.
    now rewrite Hrun, drop6_ipynb, Hfile.
  - unfold prepare. rewrite endswith_app. unfold str in *. rewrite Hrun. cbn [bind].
    rewrite drop6_ipynb, Hfile. cbn [Z.eqb negb orb].
    unfold path_join. rewrite Hrel, Hslash.
    assert (E : str_eqb tempdir [] = false) by now apply str_eqb_neq.
    rewrite E. cbn [orb].
    replace (tempdir ++ lit "/" ++ base ++ lit ".ipynb")
      with ((tempdir ++ lit "/" ++ base) ++ lit ".ipynb")
      by now rewrite <- !app_assoc.
    rewrite drop6_ipynb. now rewrite <- !app_assoc.
Qed.

(** A notebook in a directory of the sample worker. *)
Lemma notebook_script_path_witness :
  conversion_fails flake8_host (lit "nb/a" ++ lit ".ipynb") = false
  /\ prepare flake8_host (lit "/tmp/tmpdir") (lit "nb/a" ++ lit ".ipynb")
       (lit "flake8-json") (active_opts true)
     = Ret (lit "/tmp/tmpdir" ++ lit "/" ++ lit "nb/a" ++ lit ".py",
            dict_get (active_opts true) (lit "ipynb") [lit "flake8-json"])
  /\ drop6 (lit "nb/a" ++ lit ".ipynb") = lit "nb/a".
Proof.
  apply (@notebook_script_path flake8_host (lit "/tmp/tmpdir") (lit "nb/a")
           (lit "flake8-json") []);
    [discriminate | reflexivity | reflexivity | reflexivity | reflexivity].
Defined.

(** ** Accepted titles *)

(** Every title that [check_pr_title] accepts starts with two uppercase
    letters. *)
Theorem accepted_title_starts_with_key (title : str) (w : world) :
  fst (check_pr_title (Some title) w) = 0%Z ->
  exists a b rest,
    title = a :: b :: rest /\ uppercase_letter a /\ uppercase_letter b.
Proof.
  rewrite check_pr_title_code. intros H.
  assert (Hw : well_formed_title title).
  { apply search_TITLE_RE. destruct (Re.search TITLE_RE title); discriminate. }
  destruct Hw as (l & rest & (refs & Hne & Hrefs & ->) & ->).
  destruct refs as [|r refs]; [contradiction|].
  destruct (join_starts (lit ", ") r refs) as [t ->].
  inversion Hrefs as [|? ? Hr _]; subst.
  destruct Hr as (k1 & n & -> & [Hlen Hup] & _).
  destruct k1 as [|a [|b us]]; cbn [List.length] in Hlen; try lia.
  inversion Hup as [|? ? Ha Hup']; subst. inversion Hup' as [|? ? Hb _]; subst.
  exists a, b, (((us ++ lit "-" ++ n) ++ t) ++ lit ": " ++ rest).
  repeat split; assumption.
Qed.

(** The first title the specification accepts. *)
Lemma accepted_title_starts_with_key_witness :
  fst (check_pr_title (Some (lit "JIRA-42: fix")) fresh_world) = 0%Z
  /\ exists a b rest,
       lit "JIRA-42: fix" = a :: b :: rest
       /\ uppercase_letter a /\ uppercase_letter b.
Proof.
  split; [reflexivity|].
  apply (@accepted_title_starts_with_key (lit "JIRA-42: fix") fresh_world).
  reflexivity.
Defined.

(** ** What the event cache keeps *)

(** An exception of the event cache is never stored: the call that raises
    leaves the cached value as it was, which is none, so that the next call
    tries again; a call that returns leaves the value it returned in the
    cache. *)
Theorem cache_errors_not_stored (h : EventCache.host) (c : EventCache.cache) :
  match EventCache.call h c with
  | (Raise e, c') =>
      EventCache._event c' = EventCache._event c
      /\ EventCache.is_None (EventCache._event c) = true
      /\ (e = KeyError \/ e = OSError \/ e = JSONDecodeError)
  | (Ret v, c') => EventCache._event c' = v
  end.
Proof.
  unfold EventCache.call.
  destruct (EventCache.is_None (EventCache._event c)); [|reflexivity].
  destruct (EventCache.environ h _); [|auto].
  destruct (EventCache.file_content h _); [|auto].
  destruct (EventCache.json_loads h _); [reflexivity | auto].
Qed.

(** With a readable payload that decodes to the value [v], every call of
    the cache returns [v].  A value other than [None] is read once and then
    served from memory; a payload that decodes to [None] (the JSON text
    null) is not recognised as cached and is read again on every call. *)
Theorem cache_calls_reads (h : EventCache.host) (path text : str)
    (v : EventCache.pyval) (n : nat) :
  EventCache.environ h (lit "GITHUB_EVENT_PATH") = Some path ->
  EventCache.file_content h path = Some text ->
  EventCache.json_loads h text = Some v ->
  cache_calls h n EventCache.init
  = (repeat (Ret v) n,
     {| EventCache._event := (if Nat.eqb n 0 then EventCache.PyNone else v);
        EventCache.reads := if EventCache.is_None v then n else Nat.min n 1 |}).
Proof.
  intros He Hf Hj. destruct (EventCache.is_None v) eqn:Ev.
  - destruct v; try discriminate.
    unfold EventCache.init. rewrite (cache_calls_none h He Hf Hj), Nat.add_0_r.
    now destruct n.
  - destruct n as [|n]; [reflexivity|].
    cbn [cache_calls]. rewrite (EventCacheFacts.call_first h He Hf Hj).
    rewrite cache_calls_cached by exact Ev.
    cbn [EventCache._event repeat Nat.eqb]. now destruct n.
Qed.

(** Three calls on a payload that holds the JSON text null read it three
    times. *)
Lemma cache_calls_reads_witness :
  EventCache.reads (snd (cache_calls null_host 3 EventCache.init)) = 3
  /\ EventCache.reads (snd (cache_calls event_host 3 EventCache.init)) = 1.
Proof.
  rewrite (@cache_calls_reads null_host (lit "/github/workflow/event.json")
             (lit "null") EventCache.PyNone 3 eq_refl eq_refl eq_refl).
  split; reflexivity.
Defined.
(** ** Runs that end inside the file loop *)





